(** * FlowCal gate functions: a shallow embedding of [fc/gate.py]

    The module [fc/gate.py] holds four gates over an [N x D] event array:
    [start_end], [high_low], [ellipse] and [density2d].  Each gate is
    embedded as a function from its arguments to a [result]; a Python
    exception is the [Err] branch.

    Numbers.  Event counts and indices are [nat] or [Z].  Floating-point
    coordinates are idealised: the gates that only compare coordinates
    ([high_low], [density2d]) use exact rationals [Q], the gate that needs
    [cos], [sin], [log10] and powers ([ellipse]) uses the real numbers [R].
    Rounding of the coordinates is therefore not part of the model.  Two
    places of [density2d] are modelled with their binary64 behaviour: the
    product [gate_fraction*float(N)], whose rounding decides the number of
    events to keep ([round_binary64] below), and the normalising division,
    which can produce the IEEE special values ([float64] below). *)

From Stdlib Require Import String.
From Stdlib Require Import List Bool Arith ZArith QArith Qround Qpower Lia Lqa.
From Stdlib Require Import Permutation Sorted.
From Stdlib Require Reals Lra.
Import ListNotations.

Set Implicit Arguments.
Open Scope string_scope.
Open Scope list_scope.
Open Scope nat_scope.

(** ** Exceptions and results *)

Module Py.

(** The exception classes that can leave a gate. *)
Inductive pyclass : Type :=
  | AssertionError
  | ValueError
  | IndexError.

(** [Raised c msg] is an exception created by a [raise] or [assert]
    statement written in [gate.py]; [Runtime c] is one signalled by the
    interpreter or by numpy while evaluating an expression of [gate.py]
    (subscripting an empty array, indexing with a float array, a rejected
    argument of a library call). *)
Inductive exn : Type :=
  | Raised (c : pyclass) (msg : string)
  | Runtime (c : pyclass).

Inductive result (A : Type) : Type :=
  | Ok (a : A)
  | Err (e : exn).

Arguments Ok {A} a.
Arguments Err {A} e.

Definition bind {A B : Type} (r : result A) (k : A -> result B) : result B :=
  match r with
  | Ok a => k a
  | Err e => Err e
  end.

Definition assert (b : bool) (msg : string) : result unit :=
  if b then Ok tt else Err (Raised AssertionError msg).

(** Whether an exception comes from a check written in the gate itself. *)
Definition from_check (e : exn) : bool :=
  match e with
  | Raised _ _ => true
  | Runtime _ => false
  end.

End Py.

Import Py.

Declare Scope py_scope.
Delimit Scope py_scope with py.
Notation "x <- c1 ;; c2" := (bind c1 (fun x => c2))
  (at level 61, c1 at next level, right associativity) : py_scope.
Notation "' pat <- c1 ;; c2" := (bind c1 (fun x => match x with pat => c2 end))
  (at level 61, pat pattern, c1 at next level, right associativity) : py_scope.
Open Scope py_scope.

(** ** numpy indexing *)

Module Np.

(** [data[mask]] for a boolean [mask]: the rows at which [mask] is [True]. *)
Fixpoint getitem_bool {A : Type} (data : list A) (mask : list bool) : list A :=
  match data, mask with
  | d :: data', m :: mask' =>
      if m then d :: getitem_bool data' mask' else getitem_bool data' mask'
  | _, _ => []
  end.

(** [np.nonzero(mask)[0]], counting from [k]. *)
Fixpoint nonzero_from (k : nat) (mask : list bool) : list nat :=
  match mask with
  | [] => []
  | m :: mask' =>
      if m then k :: nonzero_from (S k) mask' else nonzero_from (S k) mask'
  end.

Definition nonzero (mask : list bool) : list nat := nonzero_from 0 mask.

(** Python's normalisation of a slice bound against a length. *)
Definition slice_bound (i : Z) (len : nat) : nat :=
  if (i <? 0)%Z
  then Z.to_nat (Z.max (i + Z.of_nat len) 0)
  else Nat.min (Z.to_nat i) len.

(** [mask[:stop] = v] *)
Definition set_upto {A : Type} (mask : list A) (stop : Z) (v : A) : list A :=
  let s := slice_bound stop (length mask) in
  repeat v s ++ skipn s mask.

(** [mask[start:] = v] *)
Definition set_from {A : Type} (mask : list A) (start : Z) (v : A) : list A :=
  let s := slice_bound start (length mask) in
  firstn s mask ++ repeat v (length mask - s).

(** [data[:, channels]]: a column outside the row is an [IndexError]. *)
Fixpoint take_columns {A : Type} (row : list A) (channels : list nat)
  : result (list A) :=
  match channels with
  | [] => Ok []
  | c :: cs =>
      match nth_error row c with
      | Some v => vs <- take_columns row cs ;; Ok (v :: vs)
      | None => Err (Runtime IndexError)
      end
  end.

Fixpoint getitem_columns {A : Type} (data : list (list A)) (channels : list nat)
  : result (list (list A)) :=
  match data with
  | [] => Ok []
  | r :: data' =>
      r' <- take_columns r channels ;;
      rs <- getitem_columns data' channels ;;
      Ok (r' :: rs)
  end.

End Np.

Import Np.

(** ** [start_end] *)

Module StartEnd.

Record StartEndGateOutput (A : Type) : Type := mkStartEndGateOutput {
  gated_data : list A;
  mask : list bool
}.

(** The namedtuple computed by [start_end]; [num_start] and [num_end] are
    Python integers. *)
Definition start_end_full {A : Type} (data : list A) (num_start num_end : Z)
  : result (StartEndGateOutput A) :=
  if (Z.of_nat (length data) <? num_start + num_end)%Z
  then Err (Raised ValueError
              "Number of events to discard greater than total number.")
  else
    let mask := repeat true (length data) in
    let mask := set_upto mask num_start false in
    let mask := set_from mask (- num_end) false in
    Ok (mkStartEndGateOutput (getitem_bool data mask) mask).

(** [start_end(data, num_start, num_end, full_output)] *)
Definition start_end {A : Type} (data : list A) (num_start num_end : Z)
  (full_output : bool) : result (list A + StartEndGateOutput A) :=
  out <- start_end_full data num_start num_end ;;
  Ok (if full_output then inr out else inl (gated_data out)).

End StartEnd.

(** ** [high_low] *)

Module HighLow.

(** The [channels] argument: [None], one column, or a list of columns. *)
Inductive channel_sel : Type :=
  | AllChannels
  | OneChannel (c : nat)
  | Channels (cs : list nat).

(** The [high] and [low] arguments on a plain array: absent (then
    [np.Inf] or [-np.Inf] is used) or a scalar.  Bounds given as arrays,
    and the bounds that an [FCSData] object supplies from its
    [channel_info], are not part of this embedding; the values of the
    events are finite numbers. *)
Inductive bound : Type :=
  | Unbounded
  | Scalar (q : Q).

Record HighLowGateOutput : Type := mkHighLowGateOutput {
  gated_data : list (list Q);
  mask : list bool
}.

Definition Qlt_bool (x y : Q) : bool := negb (Qle_bool y x).

(** Broadcast a scalar bound against a row of [ncols] columns; [None]
    stands for the infinite default. *)
Definition broadcast (b : bound) (ncols : nat) : result (list (option Q)) :=
  match b with
  | Unbounded => Ok (repeat None ncols)
  | Scalar q => Ok (repeat (Some q) ncols)
  end.

Definition below (v : Q) (h : option Q) : bool :=
  match h with None => true | Some q => Qlt_bool v q end.

Definition above (v : Q) (l : option Q) : bool :=
  match l with None => true | Some q => Qlt_bool q v end.

(** One row of [np.all((data_ch < high) & (data_ch > low), axis=1)]. *)
Fixpoint row_inside (row : list Q) (high low : list (option Q)) : bool :=
  match row, high, low with
  | v :: row', h :: high', l :: low' =>
      below v h && above v l && row_inside row' high' low'
  | _, _, _ => true
  end.

Definition select (data : list (list Q)) (channels : channel_sel)
  : result (list (list Q)) :=
  match channels with
  | AllChannels => Ok data
  | OneChannel c => getitem_columns data [c]
  | Channels cs => getitem_columns data cs
  end.

(** The mask, row by row; [high] and [low] are broadcast against the
    columns of the row. *)
Fixpoint rows_inside (data_ch : list (list Q)) (high low : bound)
  : result (list bool) :=
  match data_ch with
  | [] => Ok []
  | row :: rest =>
      hs <- broadcast high (length row) ;;
      ls <- broadcast low (length row) ;;
      ms <- rows_inside rest high low ;;
      Ok (row_inside row hs ls :: ms)
  end.

Definition high_low_full (data : list (list Q)) (channels : channel_sel)
  (high low : bound) : result HighLowGateOutput :=
  data_ch <- select data channels ;;
  mask <- rows_inside data_ch high low ;;
  Ok (mkHighLowGateOutput (getitem_bool data mask) mask).

Definition high_low (data : list (list Q)) (channels : channel_sel)
  (high low : bound) (full_output : bool)
  : result (list (list Q) + HighLowGateOutput) :=
  out <- high_low_full data channels high low ;;
  Ok (if full_output then inr out else inl (gated_data out)).

End HighLow.

(** ** [ellipse] *)

Module Ellipse.

Import Reals.
Local Open Scope R_scope.

Record EllipseGateOutput : Type := mkEllipseGateOutput {
  gated_data : list (list R);
  mask : list bool;
  contour : list (list (R * R))
}.

Definition Rle_bool (x y : R) : bool := if Rle_dec x y then true else false.

Definition log10 (x : R) : R := ln x / ln 10.

(** [10 ** v] *)
Definition pow10 (v : R) : R := Rpower 10 v.

Definition mat2 : Type := (R * R) * (R * R).

(** [R = [[cos, sin], [-sin, cos]]] *)
Definition rotation (theta : R) : mat2 :=
  ((cos theta, sin theta), (- sin theta, cos theta)).

Definition transpose (M : mat2) : mat2 :=
  let '((m00, m01), (m10, m11)) := M in ((m00, m10), (m01, m11)).

(** [np.dot(v, M)] for one row [v]. *)
Definition dot (v : R * R) (M : mat2) : R * R :=
  let '((m00, m01), (m10, m11)) := M in
  (fst v * m00 + snd v * m10, fst v * m01 + snd v * m11).

(** The two gated coordinates of a row of [data_ch]. *)
Definition point_of (row : list R) : R * R := (nth 0 row 0, nth 1 row 0).

Definition Req_bool (x y : R) : bool := if Req_EM_T x y then true else false.

(** The mask entry of one event.  Two cases make numpy compute with [inf]
    or [nan], which no comparison [<= 1] accepts: in log mode a coordinate
    that is not positive, and a semi-axis equal to zero. *)
Definition accept (center : R * R) (a b theta : R) (log : bool) (p : R * R)
  : bool :=
  if (log && (Rle_bool (fst p) 0 || Rle_bool (snd p) 0))
     || Req_bool a 0 || Req_bool b 0
  then false
  else
    let p := if log then (log10 (fst p), log10 (snd p)) else p in
    let centered := (fst p - fst center, snd p - snd center) in
    let rotated := dot centered (transpose (rotation theta)) in
    Rle_bool ((fst rotated / a) ^ 2 + (snd rotated / b) ^ 2) 1.

(** [np.linspace(0, 1, num)]: [num] values, both end points included. *)
Definition linspace01 (num : nat) : list R :=
  map (fun k => INR k / INR (num - 1)) (seq 0 num).

(** [t = np.linspace(0,1,100)*2*np.pi] *)
Definition contour_angles : list R :=
  map (fun u => u * 2 * PI) (linspace01 100).

Definition contour_point (center : R * R) (a b theta : R) (log : bool) (t : R)
  : R * R :=
  let ci := dot (a * cos t, b * sin t) (rotation theta) in
  let ci := (fst ci + fst center, snd ci + snd center) in
  if log then (pow10 (fst ci), pow10 (snd ci)) else ci.

Definition ellipse_full (data : list (list R)) (channels : list nat)
  (center : R * R) (a b theta : R) (log : bool) : result EllipseGateOutput :=
  _ <- assert (Nat.eqb (length channels) 2) "2 channels should be specified." ;;
  data_ch <- getitem_columns data channels ;;
  let mask := map (fun row => accept center a b theta log (point_of row)) data_ch in
  let cntr := [map (contour_point center a b theta log) contour_angles] in
  Ok (mkEllipseGateOutput (getitem_bool data mask) mask cntr).

Definition ellipse (data : list (list R)) (channels : list nat)
  (center : R * R) (a b theta : R) (log full_output : bool)
  : result (list (list R) + EllipseGateOutput) :=
  out <- ellipse_full data channels center a b theta log ;;
  Ok (if full_output then inr out else inl (gated_data out)).

End Ellipse.

(** ** [density2d] *)

Module Density2d.

(** A numpy array of two dimensions: its shape and its row-major buffer
    ([ravel] returns the buffer, [A[i, j]] reads it at [i * shape1 + j]). *)
Record array2 (A : Type) : Type := mkArray2 {
  shape0 : nat;
  shape1 : nat;
  ravel : list A
}.

(** The doubles that the normalising division can produce. *)
Inductive float64 : Type :=
  | Fin (q : Q)
  | PInf
  | NInf
  | NaN.

(** [x / y] on finite doubles, with numpy's default error state: a zero
    divisor gives [nan] or an infinity (and a warning), not an exception. *)
Definition fdiv (x y : Q) : float64 :=
  if Qeq_bool y 0
  then (if Qeq_bool x 0 then NaN else if Qle_bool 0 x then PInf else NInf)
  else Fin (x / y).

Definition is_finite (x : float64) : bool :=
  match x with Fin _ => true | _ => false end.

(** The order numpy sorts doubles by: [nan] comes last. *)
Definition f64_rank (x : float64) : nat :=
  match x with NInf => 0 | Fin _ => 1 | PInf => 2 | NaN => 3 end.

Definition f64_leb (x y : float64) : bool :=
  match x, y with
  | Fin a, Fin b => Qle_bool a b
  | _, _ => Nat.leb (f64_rank x) (f64_rank y)
  end.

Definition Qlt_bool (x y : Q) : bool := negb (Qle_bool y x).

(** *** [np.histogram2d] with explicit bin edges *)

Fixpoint increasing (edges : list Q) : bool :=
  match edges with
  | e1 :: ((e2 :: _) as rest) => Qlt_bool e1 e2 && increasing rest
  | _ => true
  end.

Definition valid_edges (edges : list Q) : bool :=
  Nat.leb 2 (length edges) && increasing edges.

(** Bin [i] of an axis holds [v] when [edges[i] <= v < edges[i+1]]; the
    last bin also holds its right edge. *)
Definition in_bin (edges : list Q) (i : nat) (v : Q) : bool :=
  Nat.ltb (S i) (length edges) &&
  Qle_bool (nth i edges 0%Q) v &&
  (Qlt_bool v (nth (S i) edges 0%Q) ||
   (Nat.eqb (S (S i)) (length edges) && Qeq_bool v (nth (S i) edges 0%Q))).

Definition count_rows (p : Q * Q -> bool) (pts : list (Q * Q)) : nat :=
  length (filter p pts).

(** The embedding covers edge arrays that increase strictly, with at least
    one bin on each axis; on other edges the model stops (numpy up to 1.14
    refuses them, later versions count with empty bins). *)
Definition histogram2d (pts : list (Q * Q)) (bins : list Q * list Q)
  : result (array2 nat * list Q * list Q) :=
  let '(xe, ye) := bins in
  if valid_edges xe && valid_edges ye then
    let nx := length xe - 1 in
    let ny := length ye - 1 in
    let H :=
      flat_map (fun i =>
        map (fun j =>
          count_rows (fun p => in_bin xe i (fst p) && in_bin ye j (snd p)) pts)
          (seq 0 ny))
        (seq 0 nx) in
    Ok (mkArray2 nx ny H, xe, ye)
  else Err (Runtime ValueError).

(** *** Mapping each event to its bin *)

(** [np.digitize(x, bins)] for increasing [bins]: the [i] with
    [bins[i-1] <= x < bins[i]]. *)
Fixpoint digitize (x : Q) (bins : list Q) : nat :=
  match bins with
  | [] => 0
  | e :: bins' => if Qlt_bool x e then 0 else S (digitize x bins')
  end.

(** One entry of [ix] (or [iy]) after the right-edge reconciliation. *)
Definition bin_index (edges : list Q) (v : Q) : Z :=
  if Qeq_bool v (last edges 0%Q)
  then Z.of_nat (length edges) - 2
  else Z.of_nat (digitize v edges) - 1.

(** [x_outliers], [y_outliers] *)
Definition outliers (edges : list Q) : list Z :=
  [(-1)%Z; (Z.of_nat (length edges) - 1)%Z].

Definition Z_in (z : Z) (l : list Z) : bool := existsb (Z.eqb z) l.

Fixpoint update {A : Type} (l : list A) (p : nat) (f : A -> A) : list A :=
  match l, p with
  | [], _ => []
  | a :: l', O => f a :: l'
  | a :: l', S p' => a :: update l' p' f
  end.

(** [Hi[xi, yi].append(i)]; the indices are in range where it is called. *)
Definition append_at (Hi : array2 (list nat)) (xi yi : Z) (i : nat)
  : array2 (list nat) :=
  mkArray2 (shape0 Hi) (shape1 Hi)
    (update (ravel Hi) (Z.to_nat xi * shape1 Hi + Z.to_nat yi)
       (fun l => l ++ [i])).

(** [np.empty_like(H, dtype=object)] filled with empty lists. *)
Definition empty_lists (H : array2 nat) : array2 (list nat) :=
  mkArray2 (shape0 H) (shape1 H) (repeat [] (length (ravel H))).

Fixpoint enumerate_from {A : Type} (k : nat) (l : list A) : list (nat * A) :=
  match l with
  | [] => []
  | a :: l' => (k, a) :: enumerate_from (S k) l'
  end.

(** The body of the loop over [enumerate(zip(ix, iy))]. *)
Definition bin_step (xe ye : list Q) (st : array2 (list nat) * nat)
  (e : nat * (Z * Z)) : array2 (list nat) * nat :=
  let '(Hi, N) := st in
  let '(i, (xi, yi)) := e in
  if negb (Z_in xi (outliers xe)) && negb (Z_in yi (outliers ye))
  then (append_at Hi xi yi i, N + 1)
  else (Hi, N).

Definition bin_events (pts : list (Q * Q)) (H : array2 nat) (xe ye : list Q)
  : array2 (list nat) * nat :=
  let ix := map (fun p => bin_index xe (fst p)) pts in
  let iy := map (fun p => bin_index ye (snd p)) pts in
  fold_left (bin_step xe ye) (enumerate_from 0 (combine ix iy))
    (empty_lists H, 0).

(** The guard of the loop, read on the coordinates of one event. *)
Definition in_range (xe ye : list Q) (p : Q * Q) : bool :=
  negb (Z_in (bin_index xe (fst p)) (outliers xe)) &&
  negb (Z_in (bin_index ye (snd p)) (outliers ye)).

(** The position of [Hi[xi, yi]] in the buffer, for the event [p]. *)
Definition flat_bin (xe ye : list Q) (p : Q * Q) : nat :=
  Z.to_nat (bin_index xe (fst p)) * (length ye - 1) +
  Z.to_nat (bin_index ye (snd p)).

(** The events that the loop is meant to leave in bin [b]: the in-range
    row numbers whose bin is [b], in row order. *)
Definition events_of_bin (xe ye : list Q) (k : nat) (pts : list (Q * Q))
  (b : nat) : list nat :=
  map fst
    (filter (fun e => in_range xe ye (snd e) && Nat.eqb (flat_bin xe ye (snd e)) b)
       (enumerate_from k pts)).

(** Closed range of an axis: from the first edge to the last one. *)
Definition within (edges : list Q) (v : Q) : bool :=
  Qle_bool (hd 0%Q edges) v && Qle_bool v (last edges 0%Q).

(** *** Threshold selection *)

(** Binary64 arithmetic for the product of line 275.  A double is a
    rational [m * 2^e] with an integer [m] of at most 53 bits. *)

Definition pow2 (e : Z) : Q := (2 ^ e)%Q.

(** The position of the leading bit of a positive rational: the [k] with
    [2^k <= x < 2^(k+1)]. *)
Definition ilog2 (x : Q) : Z :=
  let d := (Z.log2 (Qnum x) - Z.log2 (Zpos (Qden x)))%Z in
  if Qle_bool (pow2 d) x then d else (d - 1)%Z.

(** The nearest integer, a tie going to the even one. *)
Definition round_half_even (y : Q) : Z :=
  let m := Qfloor y in
  match Qcompare (y - inject_Z m) (1 # 2) with
  | Lt => m
  | Gt => (m + 1)%Z
  | Eq => if Z.even m then m else (m + 1)%Z
  end.

(** Round to the nearest double, ties to even (the IEEE default mode, which
    Python and numpy use): [x] is scaled so that its leading bit is bit 52,
    rounded to an integer and scaled back.  The exponent range is not
    bounded: every double is a fixed point, and a result in the normal range
    of binary64 is the one the machine gives.  Below [2^-1022] the machine
    rounds more coarsely, to a value of the same sign when the factors are
    a non-zero double and a count, so the ceiling taken at line 275 is the
    same; a product beyond [2^1024], which overflows, is outside the
    embedding. *)
Definition round_binary64 (x : Q) : Q :=
  match Qcompare x 0 with
  | Eq => 0%Q
  | Gt => let e := (ilog2 x - 52)%Z in
          (inject_Z (round_half_even (x / pow2 e)) * pow2 e)%Q
  | Lt => let e := (ilog2 (- x) - 52)%Z in
          (- (inject_Z (round_half_even (- x / pow2 e)) * pow2 e))%Q
  end.

(** [gate_fraction*float(N)].  [gate_fraction] reaches the function as a
    double: a rational of the normal range that is not one stands for the
    double nearest to it, as a Python literal does.  [float(N)] is exact
    for [N] below [2^53], and the product is rounded once; an array cannot
    hold [2^53] events, and from there on the product is left as it is. *)
Definition scaled_count (gate_fraction : Q) (N : nat) : Q :=
  let p := (round_binary64 gate_fraction * inject_Z (Z.of_nat N))%Q in
  if (Z.of_nat N <? 2 ^ 53)%Z then round_binary64 p else p.

(** [n = int(np.ceil(gate_fraction*float(N)))] *)
Definition count_needed (gate_fraction : Q) (N : nat) : Z :=
  Qceiling (scaled_count gate_fraction N).

Definition sumQ (l : list Q) : Q := fold_right Qplus 0%Q l.

(** [D = sH / np.sum(sH)] *)
Definition normalize (sH : array2 Q) : array2 float64 :=
  mkArray2 (shape0 sH) (shape1 sH)
    (map (fun q => fdiv q (sumQ (ravel sH))) (ravel sH)).

Fixpoint cumsum_from (acc : nat) (l : list nat) : list nat :=
  match l with
  | [] => []
  | c :: l' => (acc + c) :: cumsum_from (acc + c) l'
  end.

Definition cumsum (l : list nat) : list nat := cumsum_from 0 l.

(** [np.nonzero(csvH >= n)[0][0]]: subscripting an empty result raises. *)
Definition first_reaching (csvH : list nat) (n : Z) : result nat :=
  match nonzero (map (fun c => (n <=? Z.of_nat c)%Z) csvH) with
  | k :: _ => Ok k
  | [] => Err (Runtime IndexError)
  end.

(** [np.sort] on an index list. *)
Fixpoint insert_sorted (i : nat) (l : list nat) : list nat :=
  match l with
  | [] => [i]
  | j :: l' => if Nat.leb i j then i :: l else j :: insert_sorted i l'
  end.

Definition sort (l : list nat) : list nat := fold_right insert_sorted [] l.

(** [data[mask]] for the index array [mask = np.array([...])]: an empty
    list makes a float array, which numpy refuses as an index. *)
Fixpoint take_rows {A : Type} (data : list A) (idx : list nat)
  : result (list A) :=
  match idx with
  | [] => Ok []
  | i :: idx' =>
      match nth_error data i with
      | Some r => rs <- take_rows data idx' ;; Ok (r :: rs)
      | None => Err (Runtime IndexError)
      end
  end.

Definition getitem_index {A : Type} (data : list A) (mask : list nat)
  : result (list A) :=
  match mask with
  | [] => Err (Runtime IndexError)
  | _ => take_rows data mask
  end.

Definition point_of (row : list Q) : Q * Q := (nth 0 row 0%Q, nth 1 row 0%Q).

(** The namedtuple of [density2d] without its [contour] field, which is
    traced by matplotlib's C contour module and is outside this embedding. *)
Record Density2dGateOutput : Type := mkDensity2dGateOutput {
  gated_data : list (list Q);
  mask : list nat
}.

Section Gate.

(** The two library routines whose floating-point results decide the order
    of the bins: [scipy.ndimage.filters.gaussian_filter] (with [order=0],
    [mode='constant'], [cval=0.0], [truncate=6.0]) and [np.argsort]. *)
Variable gaussian_filter : array2 nat -> Q -> array2 Q.
Variable argsort : list float64 -> list nat.

(** [sidx = np.argsort(vD)[::-1]] *)
Definition density_order (H : array2 nat) (sigma : Q) : list nat :=
  let sH := gaussian_filter H sigma in
  let D := normalize sH in
  rev (argsort (ravel D)).

(** [csvH = np.cumsum(vH[sidx])] *)
Definition sorted_cumsum (H : array2 nat) (sidx : list nat) : list nat :=
  cumsum (map (fun b => nth b (ravel H) 0) sidx).

(** The events of the bins [sidx[:(Nidx+1)]], before sorting. *)
Definition accepted (Hi : array2 (list nat)) (sidx : list nat) (Nidx : nat)
  : list nat :=
  concat (map (fun b => nth b (ravel Hi) []) (firstn (Nidx + 1) sidx)).

(** [bins] is given in full, as the pair of the edge arrays of the two
    axes. *)
Definition density2d_full (data : list (list Q)) (channels : list nat)
  (bins : list Q * list Q) (gate_fraction sigma : Q)
  : result Density2dGateOutput :=
  _ <- assert (Nat.eqb (length channels) 2) "2 channels should be specified." ;;
  data_ch <- getitem_columns data channels ;;
  _ <- assert (Nat.ltb 1 (length data_ch)) "Data must have more than 1 event" ;;
  let pts := map point_of data_ch in
  '(H, xe, ye) <- histogram2d pts bins ;;
  let '(Hi, N) := bin_events pts H xe ye in
  let n := count_needed gate_fraction N in
  let sidx := density_order H sigma in
  let csvH := sorted_cumsum H sidx in
  Nidx <- first_reaching csvH n ;;
  let mask := sort (accepted Hi sidx Nidx) in
  gated <- getitem_index data mask ;;
  Ok (mkDensity2dGateOutput gated mask).

Definition density2d (data : list (list Q)) (channels : list nat)
  (bins : list Q * list Q) (gate_fraction sigma : Q) (full_output : bool)
  : result (list (list Q) + Density2dGateOutput) :=
  out <- density2d_full data channels bins gate_fraction sigma ;;
  Ok (if full_output then inr out else inl (gated_data out)).

End Gate.

(** *** Instances of the two library routines *)

(** [gaussian_filter] for a [sigma] below [1/12]: the kernel radius
    [int(truncate*sigma + 0.5)] is [0], the kernel is [[1.0]] and the filter
    returns the counts unchanged. *)
Definition gaussian_filter_narrow (H : array2 nat) (sigma : Q) : array2 Q :=
  mkArray2 (shape0 H) (shape1 H)
    (map (fun c => inject_Z (Z.of_nat c)) (ravel H)).

Fixpoint insert_index (vD : list float64) (i : nat) (l : list nat) : list nat :=
  match l with
  | [] => [i]
  | j :: l' =>
      if f64_leb (nth i vD NaN) (nth j vD NaN) then i :: l
      else j :: insert_index vD i l'
  end.

(** An [argsort] by insertion, stable on ties. *)
Definition argsort_insertion (vD : list float64) : list nat :=
  fold_right (insert_index vD) [] (seq 0 (length vD)).

(** *** Sample calls *)

(** Bin edges [[0, 1, 2]] for both axes: a grid of two by two bins. *)
Definition sample_edges : list Q := [0; 1; 2]%Q.

(** Three events: two in bin (0, 0), one in bin (1, 1). *)
Definition sample_events : list (list Q) :=
  [[1 # 2; 1 # 2]; [1 # 2; 1 # 2]; [3 # 2; 3 # 2]]%Q.

(** Two events, both beyond the last edge on each axis. *)
Definition sample_outside : list (list Q) := [[5; 5]; [7; 7]]%Q.



End Density2d.

(** * Properties *)

Unset Implicit Arguments.

(** ** Results *)

Lemma bind_Ok {A B : Type} (r : result A) (k : A -> result B) (a : A) :
  r = Ok a -> bind r k = k a.
Proof. intros ->. reflexivity. Qed.

(** ** Boolean indexing *)

Lemma slice_bound_le (i : Z) (len : nat) : slice_bound i len <= len.
Proof.
  unfold slice_bound. destruct (i <? 0)%Z eqn:E.
  - apply Z.ltb_lt in E. lia.
  - apply Nat.le_min_r.
Qed.

Lemma set_upto_length {A : Type} (mask : list A) (stop : Z) (v : A) :
  length (set_upto mask stop v) = length mask.
Proof.
  unfold set_upto. pose proof (slice_bound_le stop (length mask)) as Hs.
  rewrite length_app, repeat_length, length_skipn. lia.
Qed.

Lemma set_from_length {A : Type} (mask : list A) (start : Z) (v : A) :
  length (set_from mask start v) = length mask.
Proof.
  unfold set_from. pose proof (slice_bound_le start (length mask)) as Hs.
  rewrite length_app, repeat_length, length_firstn. lia.
Qed.

(** [mask[0:] = v] overwrites every entry. *)
Lemma set_from_zero {A : Type} (mask : list A) (v : A) :
  set_from mask 0 v = repeat v (length mask).
Proof.
  unfold set_from.
  change (slice_bound 0 (length mask)) with (Nat.min 0 (length mask)).
  now rewrite Nat.min_0_l, Nat.sub_0_r.
Qed.

Lemma getitem_bool_all_false {A : Type} (data : list A) (n : nat) :
  getitem_bool data (repeat false n) = [].
Proof.
  revert n. induction data as [|d data IH]; intros [|n]; simpl; auto.
Qed.

Lemma nonzero_from_bounds (k : nat) (mask : list bool) (i : nat) :
  In i (nonzero_from k mask) -> k <= i < k + length mask.
Proof.
  revert k. induction mask as [|m mask IH]; simpl; intros k H; [easy|].
  destruct m; simpl in H.
  - destruct H as [<- | H]; [lia | apply IH in H; lia].
  - apply IH in H. lia.
Qed.

(** The positions selected by a boolean mask come in increasing order. *)
Lemma nonzero_from_increasing (k : nat) (mask : list bool) :
  StronglySorted lt (nonzero_from k mask).
Proof.
  revert k. induction mask as [|m mask IH]; simpl; intros k; [constructor|].
  destruct m; [|apply IH].
  constructor; [apply IH|].
  apply Forall_forall. intros i Hi. apply nonzero_from_bounds in Hi. lia.
Qed.

(** Boolean indexing returns the rows at the selected positions, in the
    order of the positions. *)
Lemma getitem_bool_nonzero_from {A : Type} (pre data : list A) (mask : list bool)
  (d : A) :
  length mask = length data ->
  getitem_bool data mask =
  map (fun i => nth i (pre ++ data) d) (nonzero_from (length pre) mask).
Proof.
  revert pre mask. induction data as [|r data IH]; intros pre [|m mask] Hlen;
    simpl in *; try discriminate; auto.
  assert (Hnext : getitem_bool data mask =
                  map (fun i => nth i (pre ++ r :: data) d)
                    (nonzero_from (S (length pre)) mask)).
  { specialize (IH (pre ++ [r]) mask ltac:(lia)).
    rewrite <- app_assoc, length_app in IH. simpl in IH.
    rewrite Nat.add_1_r in IH. exact IH. }
  destruct m; simpl; [|exact Hnext].
  rewrite <- Hnext. f_equal.
  rewrite (app_nth2 pre (r :: data) d (Nat.le_refl (length pre))).
  now rewrite Nat.sub_diag.
Qed.

Lemma getitem_bool_nonzero {A : Type} (data : list A) (mask : list bool) (d : A) :
  length mask = length data ->
  getitem_bool data mask = map (fun i => nth i data d) (nonzero mask).
Proof. intros H. exact (getitem_bool_nonzero_from [] data mask d H). Qed.

(** ** [start_end] *)

Lemma start_end_mask_contract {A : Type} (data : list A) (num_start num_end : Z)
  (out : StartEnd.StartEndGateOutput A) :
  StartEnd.start_end_full data num_start num_end = Ok out ->
  length (StartEnd.mask out) = length data /\
  StartEnd.gated_data out = getitem_bool data (StartEnd.mask out).
Proof.
  unfold StartEnd.start_end_full.
  destruct (Z.of_nat (length data) <? num_start + num_end)%Z; [discriminate|].
  intros [= <-]. simpl. split; [|reflexivity].
  now rewrite set_from_length, set_upto_length, repeat_length.
Qed.

(** C10: with [num_end = 0] and [num_start <= N] the gate succeeds and
    returns the all-[False] mask of length [N] and no event at all, because
    the slice [mask[-0:]] is the whole array. *)
Theorem start_end_num_end_zero_discards_all :
  forall (A : Type) (data : list A) (num_start : Z),
    (num_start <= Z.of_nat (length data))%Z ->
    StartEnd.start_end data num_start 0 true =
      Ok (inr (StartEnd.mkStartEndGateOutput [] (repeat false (length data)))) /\
    StartEnd.start_end data num_start 0 false = Ok (inl []).
Proof.
  intros A data num_start Hle.
  assert (Hfull : StartEnd.start_end_full data num_start 0 =
                  Ok (StartEnd.mkStartEndGateOutput []
                        (repeat false (length data)))).
  { unfold StartEnd.start_end_full.
    replace (Z.of_nat (length data) <? num_start + 0)%Z with false
      by (symmetry; apply Z.ltb_ge; lia).
    cbv zeta. change (- 0)%Z with 0%Z.
    rewrite set_from_zero, set_upto_length, repeat_length.
    now rewrite getitem_bool_all_false. }
  unfold StartEnd.start_end. rewrite Hfull. simpl. split; reflexivity.
Qed.

Lemma start_end_num_end_zero_discards_all_witness :
  (2 <= Z.of_nat (length [10; 20; 30; 40; 50]))%Z /\
  StartEnd.start_end [10; 20; 30; 40; 50] 2 0 true =
    Ok (inr (StartEnd.mkStartEndGateOutput []
               [false; false; false; false; false])).
Proof.
  split; [simpl; lia|].
  apply (start_end_num_end_zero_discards_all nat [10; 20; 30; 40; 50] 2%Z).
  simpl; lia.
Defined.

(** ** Column selection *)

Lemma getitem_columns_length {A : Type} (data data_ch : list (list A))
  (channels : list nat) :
  getitem_columns data channels = Ok data_ch -> length data_ch = length data.
Proof.
  revert data_ch. induction data as [|r data IH]; simpl; intros data_ch H.
  - now injection H as <-.
  - destruct (take_columns r channels) as [r'|e]; simpl in H; [|discriminate].
    destruct (getitem_columns data channels) as [rs|e]; simpl in H;
      [|discriminate].
    injection H as <-. simpl. f_equal. now apply IH.
Qed.

Lemma getitem_columns_nth {A : Type} (data data_ch : list (list A))
  (channels : list nat) (i : nat) (row : list A) :
  getitem_columns data channels = Ok data_ch ->
  nth_error data i = Some row ->
  exists row', take_columns row channels = Ok row' /\
               nth_error data_ch i = Some row'.
Proof.
  revert data_ch i. induction data as [|r data IH]; simpl; intros data_ch i H Hi.
  - destruct i; discriminate.
  - destruct (take_columns r channels) as [r'|e] eqn:Er; simpl in H;
      [|discriminate].
    destruct (getitem_columns data channels) as [rs|e]; simpl in H;
      [|discriminate].
    injection H as <-. destruct i as [|i]; simpl in *.
    + injection Hi as <-. now exists r'.
    + now apply IH.
Qed.

Lemma take_columns_pair {A : Type} (row : list A) (c0 c1 : nat) (x y : A) :
  nth_error row c0 = Some x -> nth_error row c1 = Some y ->
  take_columns row [c0; c1] = Ok [x; y].
Proof. intros H0 H1. simpl. now rewrite H0, H1. Qed.

(** ** [high_low] *)

Lemma rows_inside_length (data_ch : list (list Q)) (high low : HighLow.bound)
  (mask : list bool) :
  HighLow.rows_inside data_ch high low = Ok mask ->
  length mask = length data_ch.
Proof.
  revert mask. induction data_ch as [|row rest IH]; simpl; intros mask H.
  - now injection H as <-.
  - destruct (HighLow.broadcast high (length row)); simpl in H; [|discriminate].
    destruct (HighLow.broadcast low (length row)); simpl in H; [|discriminate].
    destruct (HighLow.rows_inside rest high low); simpl in H; [|discriminate].
    injection H as <-. simpl. f_equal. now apply IH.
Qed.

Lemma high_low_mask_contract (data : list (list Q))
  (channels : HighLow.channel_sel) (high low : HighLow.bound)
  (out : HighLow.HighLowGateOutput) :
  HighLow.high_low_full data channels high low = Ok out ->
  length (HighLow.mask out) = length data /\
  HighLow.gated_data out = getitem_bool data (HighLow.mask out).
Proof.
  unfold HighLow.high_low_full.
  destruct (HighLow.select data channels) as [data_ch|e] eqn:Es; simpl;
    [|discriminate].
  destruct (HighLow.rows_inside data_ch high low) as [mask|e] eqn:Em; simpl;
    [|discriminate].
  intros [= <-]. simpl. split; [|reflexivity].
  rewrite (rows_inside_length _ _ _ _ Em).
  destruct channels; simpl in Es.
  - now injection Es as <-.
  - now apply getitem_columns_length in Es.
  - now apply getitem_columns_length in Es.
Qed.

(** ** [ellipse] *)

Module EllipseProps.

Import Reals Lra.
Import Ellipse.
Local Open Scope R_scope.

Lemma Rle_bool_true (x y : R) : x <= y -> Rle_bool x y = true.
Proof. intros H. unfold Rle_bool. now destruct (Rle_dec x y). Qed.

Lemma Rle_bool_false (x y : R) : y < x -> Rle_bool x y = false.
Proof. intros H. unfold Rle_bool. destruct (Rle_dec x y); [lra | reflexivity]. Qed.

Lemma Req_bool_false (x y : R) : x <> y -> Req_bool x y = false.
Proof. intros H. unfold Req_bool. now destruct (Req_EM_T x y). Qed.

(** With [theta = 0], no log transform and non-zero semi-axes the test
    reads [((x - cx)/a)^2 + ((y - cy)/b)^2 <= 1]. *)
Lemma accept_axis_aligned (cx cy a b x y : R) :
  a <> 0 -> b <> 0 ->
  accept (cx, cy) a b 0 false (x, y) =
  Rle_bool (((x - cx) / a) ^ 2 + ((y - cy) / b) ^ 2) 1.
Proof.
  intros Ha Hb. unfold accept, rotation, transpose, dot.
  rewrite (Req_bool_false _ _ Ha), (Req_bool_false _ _ Hb). simpl.
  rewrite cos_0, sin_0. f_equal. unfold Rdiv. ring.
Qed.

Lemma ellipse_full_ok (data data_ch : list (list R)) (channels : list nat)
  (center : R * R) (a b theta : R) (log : bool) :
  length channels = 2%nat ->
  getitem_columns data channels = Ok data_ch ->
  ellipse_full data channels center a b theta log =
  Ok (mkEllipseGateOutput
        (getitem_bool data
           (map (fun row => accept center a b theta log (point_of row)) data_ch))
        (map (fun row => accept center a b theta log (point_of row)) data_ch)
        [map (contour_point center a b theta log) contour_angles]).
Proof.
  intros Hc Hd. unfold ellipse_full. rewrite Hc, Hd. reflexivity.
Qed.


(** C8: with [theta = 0] and no log transform, an event at
    [(center_x + a, center_y)] is kept and an event at
    [(center_x + a*1.001, center_y)] is gated out. *)
Theorem ellipse_boundary_point_included :
  forall (data data_ch : list (list R)) (c0 c1 : nat) (cx cy a b : R)
         (i j : nat) (on_edge outside : list R),
    0 < a -> 0 < b ->
    getitem_columns data [c0; c1] = Ok data_ch ->
    nth_error data i = Some on_edge ->
    nth_error on_edge c0 = Some (cx + a) ->
    nth_error on_edge c1 = Some cy ->
    nth_error data j = Some outside ->
    nth_error outside c0 = Some (cx + a * (1001 / 1000)) ->
    nth_error outside c1 = Some cy ->
    exists out,
      ellipse_full data [c0; c1] (cx, cy) a b 0 false = Ok out /\
      nth_error (mask out) i = Some true /\
      nth_error (mask out) j = Some false.
Proof.
  intros data data_ch c0 c1 cx cy a b i j r1 r2 Ha Hb Hd Hi Hx1 Hy1 Hj Hx2 Hy2.
  eexists. split; [apply ellipse_full_ok; [reflexivity | exact Hd]|].
  simpl mask.
  destruct (getitem_columns_nth _ _ _ _ _ Hd Hi) as (r1' & Hr1 & Hn1).
  destruct (getitem_columns_nth _ _ _ _ _ Hd Hj) as (r2' & Hr2 & Hn2).
  rewrite (take_columns_pair _ _ _ _ _ Hx1 Hy1) in Hr1. injection Hr1 as <-.
  rewrite (take_columns_pair _ _ _ _ _ Hx2 Hy2) in Hr2. injection Hr2 as <-.
  rewrite (map_nth_error _ _ _ Hn1), (map_nth_error _ _ _ Hn2).
  unfold point_of. simpl nth. rewrite !accept_axis_aligned by lra.
  split; f_equal.
  - apply Rle_bool_true.
    replace (((cx + a - cx) / a) ^ 2 + ((cy - cy) / b) ^ 2) with 1
      by (field; lra).
    lra.
  - apply Rle_bool_false.
    replace (((cx + a * (1001 / 1000) - cx) / a) ^ 2 + ((cy - cy) / b) ^ 2)
      with ((1001 / 1000) ^ 2) by (field; lra).
    lra.
Qed.

Lemma ellipse_boundary_point_included_witness :
  exists out,
    ellipse_full [[3 + 2; 7]; [3 + 2 * (1001 / 1000); 7]] [0%nat; 1%nat]
      (3, 7) 2 1 0 false = Ok out /\
    nth_error (mask out) 0 = Some true /\
    nth_error (mask out) 1 = Some false.
Proof.
  apply (ellipse_boundary_point_included
           [[3 + 2; 7]; [3 + 2 * (1001 / 1000); 7]]
           [[3 + 2; 7]; [3 + 2 * (1001 / 1000); 7]]
           0%nat 1%nat 3 7 2 1 0%nat 1%nat
           [3 + 2; 7] [3 + 2 * (1001 / 1000); 7]).
  - lra.
  - lra.
  - reflexivity.
  - reflexivity.
  - reflexivity.
  - reflexivity.
  - reflexivity.
  - reflexivity.
  - reflexivity.
Defined.

(** *** The contour *)

Lemma INR_99 : INR 99 = 99.
Proof. rewrite INR_IZR_INZ. reflexivity. Qed.

(** The sampled angles are [k * (2*pi/99)] for [k = 0 .. 99]. *)
Lemma contour_angles_closed_grid :
  contour_angles = map (fun k => INR k * (2 * PI / 99)) (seq 0 100).
Proof.
  unfold contour_angles, linspace01. rewrite map_map.
  apply map_ext. intros k.
  change (100 - 1)%nat with 99%nat. rewrite INR_99. field.
Qed.

Lemma two_pi_is_sampled : In (2 * PI) contour_angles.
Proof.
  rewrite contour_angles_closed_grid. apply in_map_iff.
  exists 99%nat. split.
  - rewrite INR_99. field.
  - apply in_seq. lia.
Qed.

(** C7, as stated, fails: the angles sampled for the contour do not all lie
    in the half-open interval from [0] to [2*pi]; the last one is [2*pi]. *)
Lemma contour_angles_not_half_open :
  ~ (forall t, In t contour_angles -> 0 <= t < 2 * PI).
Proof.
  intros H. specialize (H (2 * PI) two_pi_is_sampled). lra.
Qed.

(** C7, amended: with [full_output] the gate returns one contour of 100
    points; point [k] is the ellipse point at the angle [k * (2*pi/99)],
    so the angles are equally spaced over the closed interval from [0] to
    [2*pi] with both ends sampled; each point is rotated by [+theta],
    translated by [+center] and, in log mode, exponentiated by [10 ** v]. *)
Theorem ellipse_contour_closed_sampling :
  forall (data data_ch : list (list R)) (channels : list nat)
         (cx cy a b theta : R) (log : bool),
    length channels = 2%nat ->
    getitem_columns data channels = Ok data_ch ->
    exists out,
      ellipse data channels (cx, cy) a b theta log true = Ok (inr out) /\
      contour out =
        [map (fun k =>
                let t := INR k * (2 * PI / 99) in
                let x := a * cos t * cos theta - b * sin t * sin theta + cx in
                let y := a * cos t * sin theta + b * sin t * cos theta + cy in
                if log then (Rpower 10 x, Rpower 10 y) else (x, y))
           (seq 0 100)] /\
      nth 0 contour_angles 0 = 0 /\
      nth 99 contour_angles 0 = 2 * PI.
Proof.
  intros data data_ch channels cx cy a b theta log Hc Hd.
  eexists. split; [|split; [|split]].
  - unfold ellipse. rewrite (ellipse_full_ok _ _ _ _ _ _ _ _ Hc Hd).
    reflexivity.
  - cbn [contour]. rewrite contour_angles_closed_grid, map_map.
    f_equal. apply map_ext. intros k.
    unfold contour_point, rotation, dot, pow10. simpl fst. simpl snd.
    destruct log; f_equal; try f_equal; ring.
  - rewrite contour_angles_closed_grid.
    change (seq 0 100) with (0%nat :: seq 1 99). simpl. lra.
  - rewrite contour_angles_closed_grid.
    set (f := fun k => INR k * (2 * PI / 99)).
    rewrite (nth_indep _ 0 (f 0%nat))
      by (rewrite length_map, length_seq; lia).
    rewrite (map_nth f), seq_nth by lia.
    change (0 + 99)%nat with 99%nat. unfold f. rewrite INR_99. field.
Qed.

Lemma ellipse_contour_closed_sampling_witness :
  exists out,
    ellipse [[1; 2]; [3; 4]] [0%nat; 1%nat] (0, 0) 2 1 0 false true
      = Ok (inr out) /\
    contour out =
      [map (fun k =>
              let t := INR k * (2 * PI / 99) in
              let x := 2 * cos t * cos 0 - 1 * sin t * sin 0 + 0 in
              let y := 2 * cos t * sin 0 + 1 * sin t * cos 0 + 0 in
              if false then (Rpower 10 x, Rpower 10 y) else (x, y))
         (seq 0 100)] /\
    nth 0 contour_angles 0 = 0 /\
    nth 99 contour_angles 0 = 2 * PI.
Proof.
  apply (ellipse_contour_closed_sampling
           [[1; 2]; [3; 4]] [[1; 2]; [3; 4]] [0%nat; 1%nat] 0 0 2 1 0 false).
  - reflexivity.
  - reflexivity.
Defined.

End EllipseProps.

(** ** [density2d]: binning *)

Module BinningProps.

Import Density2d.
Local Open Scope Q_scope.

Lemma Qlt_bool_iff (x y : Q) : Qlt_bool x y = true <-> x < y.
Proof.
  unfold Qlt_bool. rewrite negb_true_iff. split.
  - intros H. apply Qnot_le_lt. intros Hle.
    apply Qle_bool_iff in Hle. congruence.
  - intros H. destruct (Qle_bool y x) eqn:E; [|reflexivity].
    apply Qle_bool_iff in E. lra.
Qed.

Lemma Qlt_bool_false_iff (x y : Q) : Qlt_bool x y = false <-> y <= x.
Proof.
  unfold Qlt_bool. rewrite negb_false_iff. apply Qle_bool_iff.
Qed.

Lemma increasing_tail (e : Q) (es : list Q) :
  increasing (e :: es) = true -> increasing es = true.
Proof.
  destruct es as [|e2 es]; [reflexivity|].
  simpl. intros H. apply andb_prop in H. tauto.
Qed.

Lemma increasing_head_lt (es : list Q) :
  forall (e : Q) (i : nat),
    increasing (e :: es) = true -> (i < length es)%nat -> e < nth i es 0.
Proof.
  induction es as [|e2 es IH]; intros e i H Hi; simpl in Hi; [lia|].
  change (increasing (e :: e2 :: es))
    with (Qlt_bool e e2 && increasing (e2 :: es))%bool in H.
  apply andb_prop in H. destruct H as [H1 H2]. apply Qlt_bool_iff in H1.
  destruct i as [|i]; simpl; [exact H1|].
  specialize (IH e2 i H2 ltac:(lia)). lra.
Qed.

Lemma increasing_nth (edges : list Q) :
  increasing edges = true ->
  forall i j, (i < j < length edges)%nat -> nth i edges 0 < nth j edges 0.
Proof.
  induction edges as [|e es IH]; intros H i j Hij; simpl in Hij; [lia|].
  destruct j as [|j]; [lia|]. destruct i as [|i]; simpl.
  - apply increasing_head_lt; [exact H | lia].
  - apply IH; [now apply increasing_tail in H | lia].
Qed.

(** [digitize] returns the position that splits increasing edges into
    those at most [v] and those above [v]. *)
Lemma digitize_spec (edges : list Q) (v : Q) :
  increasing edges = true ->
  (digitize v edges <= length edges)%nat /\
  (forall i, (i < digitize v edges)%nat -> nth i edges 0 <= v) /\
  (forall i, (digitize v edges <= i < length edges)%nat -> v < nth i edges 0).
Proof.
  induction edges as [|e es IH]; intros H; simpl.
  - repeat split; intros; lia.
  - destruct (Qlt_bool v e) eqn:E.
    + apply Qlt_bool_iff in E. repeat split; [lia | intros; lia |].
      intros [|i] Hi; [exact E|]. simpl.
      pose proof (increasing_head_lt es e i H ltac:(lia)). lra.
    + apply Qlt_bool_false_iff in E.
      destruct (IH (increasing_tail _ _ H)) as (Hlen & Hlo & Hhi).
      repeat split; [lia | |].
      * intros [|i] Hi; [exact E|]. simpl. apply Hlo. lia.
      * intros [|i] Hi; [lia|]. simpl. apply Hhi. lia.
Qed.

Lemma last_nth (edges : list Q) :
  last edges 0 = nth (length edges - 1) edges 0.
Proof.
  induction edges as [|e es IH]; [reflexivity|].
  destruct es as [|e2 es]; [reflexivity|].
  change (last (e :: e2 :: es) 0) with (last (e2 :: es) 0). rewrite IH.
  simpl. now rewrite Nat.sub_0_r.
Qed.

Lemma valid_edges_inv (edges : list Q) :
  valid_edges edges = true ->
  (2 <= length edges)%nat /\ increasing edges = true.
Proof.
  unfold valid_edges. intros H. apply andb_prop in H. destruct H as [H1 H2].
  apply Nat.leb_le in H1. tauto.
Qed.

(** Every entry of [ix] lies between the two outlier values. *)
Lemma bin_index_bounds (edges : list Q) (v : Q) :
  valid_edges edges = true ->
  (-1 <= bin_index edges v <= Z.of_nat (length edges) - 1)%Z.
Proof.
  intros H. apply valid_edges_inv in H. destruct H as [Hlen Hinc].
  unfold bin_index. destruct (Qeq_bool v (last edges 0)); [lia|].
  pose proof (digitize_spec edges v Hinc) as (Hd & _). lia.
Qed.

Lemma Z_in_outliers (edges : list Q) (z : Z) :
  Z_in z (outliers edges) = false <->
  (z <> -1 /\ z <> Z.of_nat (length edges) - 1)%Z.
Proof.
  unfold Z_in, outliers. simpl. rewrite orb_false_r, orb_false_iff.
  now rewrite !Z.eqb_neq.
Qed.

(** An index is kept by the loop exactly when it addresses a bin. *)
Lemma not_outlier_iff (edges : list Q) (v : Q) :
  valid_edges edges = true ->
  Z_in (bin_index edges v) (outliers edges) = false <->
  (0 <= bin_index edges v <= Z.of_nat (length edges) - 2)%Z.
Proof.
  intros H. pose proof (bin_index_bounds edges v H).
  rewrite Z_in_outliers. lia.
Qed.

(** The reconciled index agrees with the bins of [np.histogram2d]: [v] is
    in bin [i] exactly when its index is [i] and [i] addresses a bin. *)
Lemma in_bin_iff (edges : list Q) (i : nat) (v : Q) :
  valid_edges edges = true ->
  in_bin edges i v = true <->
  (bin_index edges v = Z.of_nat i /\ (S i < length edges)%nat).
Proof.
  intros H. apply valid_edges_inv in H. destruct H as [Hlen Hinc].
  pose proof (digitize_spec edges v Hinc) as (Hd & Hlo & Hhi).
  pose proof (increasing_nth edges Hinc) as Hnth.
  unfold in_bin, bin_index. rewrite last_nth.
  rewrite !andb_true_iff, orb_true_iff, andb_true_iff.
  rewrite Nat.ltb_lt, Nat.eqb_eq, Qle_bool_iff, Qlt_bool_iff, Qeq_bool_iff.
  destruct (Qeq_bool v (nth (length edges - 1) edges 0)) eqn:E.
  - apply Qeq_bool_iff in E. split.
    + intros [[Hi Hle] [Hlt | [Hlast _]]]; [|split; lia].
      destruct (Nat.eq_dec (S i) (length edges - 1)) as [Heq|Hne];
        [split; lia|].
      specialize (Hnth (S i) (length edges - 1)%nat ltac:(lia)). lra.
    + intros [Hidx Hi]. assert (Hi' : i = (length edges - 2)%nat) by lia.
      subst i. replace (S (length edges - 2)) with (length edges - 1)%nat
        by lia.
      repeat split; [lia | | right; split; [lia | exact E]].
      specialize (Hnth (length edges - 2)%nat (length edges - 1)%nat
                    ltac:(lia)). lra.
  - apply Qeq_bool_neq in E. split.
    + intros [[Hi Hle] [Hlt | [Hlast Heq]]].
      * split; [|exact Hi].
        destruct (Nat.lt_ge_cases i (digitize v edges)) as [Hk|Hk].
        -- destruct (Nat.le_gt_cases (digitize v edges) (S i)) as [Hk'|Hk'];
             [lia|].
           specialize (Hlo (S i) Hk'). lra.
        -- specialize (Hhi i ltac:(lia)). lra.
      * exfalso. apply E. rewrite Heq. replace (S i) with (length edges - 1)%nat
          by lia. reflexivity.
    + intros [Hidx Hi]. assert (Hk : digitize v edges = S i) by lia.
      repeat split; [exact Hi | apply Hlo; lia | left; apply Hhi; lia].
Qed.

End BinningProps.

(** ** [density2d]: the loop that fills [Hi] *)

Module LoopProps.

Import Density2d BinningProps.

Lemma update_length {A : Type} (l : list A) (p : nat) (f : A -> A) :
  length (update l p f) = length l.
Proof.
  revert p. induction l as [|a l IH]; intros [|p]; simpl; auto.
Qed.

Lemma nth_update_eq {A : Type} (l : list A) (p : nat) (f : A -> A) (d : A) :
  p < length l -> nth p (update l p f) d = f (nth p l d).
Proof.
  revert p. induction l as [|a l IH]; intros [|p] H; simpl in *; try lia; auto.
  apply IH. lia.
Qed.

Lemma nth_update_ne {A : Type} (l : list A) (p b : nat) (f : A -> A) (d : A) :
  b <> p -> nth b (update l p f) d = nth b l d.
Proof.
  revert p b. induction l as [|a l IH]; intros [|p] [|b] H; simpl; auto; try lia.
Qed.

Lemma update_total_length (l : list (list nat)) (p i : nat) :
  p < length l ->
  list_sum (map (@length nat) (update l p (fun x => x ++ [i]))) =
  S (list_sum (map (@length nat) l)).
Proof.
  revert p. induction l as [|a l IH]; intros [|p] H; simpl in *; try lia.
  - rewrite length_app. simpl. lia.
  - rewrite IH by lia. lia.
Qed.

Lemma combine_map_pair {A B C : Type} (f : A -> B) (g : A -> C) (l : list A) :
  combine (map f l) (map g l) = map (fun a => (f a, g a)) l.
Proof. induction l as [|a l IH]; simpl; [reflexivity | now rewrite IH]. Qed.

Section Loop.

Variables xe ye : list Q.

Let entry (p : Q * Q) : Z * Z := (bin_index xe (fst p), bin_index ye (snd p)).

Lemma bin_step_entry (Hi : array2 (list nat)) (N k : nat) (p : Q * Q) :
  bin_step xe ye (Hi, N) (k, entry p) =
  if in_range xe ye p
  then (append_at Hi (bin_index xe (fst p)) (bin_index ye (snd p)) k, N + 1)
  else (Hi, N).
Proof. reflexivity. Qed.

(** Invariant of the loop over [enumerate(zip(ix, iy))], started at row
    [k] with the grid [Hi] and the counter [N]. *)
Lemma bin_loop_spec (pts : list (Q * Q)) :
  forall (k : nat) (Hi : array2 (list nat)) (N : nat),
    shape1 Hi = length ye - 1 ->
    (forall p, In p pts -> in_range xe ye p = true ->
               flat_bin xe ye p < length (ravel Hi)) ->
    let r := fold_left (bin_step xe ye)
               (enumerate_from k (map entry pts)) (Hi, N) in
    snd r = N + length (filter (in_range xe ye) pts) /\
    shape1 (fst r) = shape1 Hi /\
    length (ravel (fst r)) = length (ravel Hi) /\
    list_sum (map (@length nat) (ravel (fst r))) =
      list_sum (map (@length nat) (ravel Hi)) +
      length (filter (in_range xe ye) pts) /\
    (forall b, nth b (ravel (fst r)) [] =
               nth b (ravel Hi) [] ++ events_of_bin xe ye k pts b).
Proof.
  induction pts as [|p pts IH]; intros k Hi N Hshape Hfit; cbv zeta.
  - simpl. repeat split; try lia. intros b.
    unfold events_of_bin. simpl. now rewrite app_nil_r.
  - cbn [map enumerate_from fold_left]. rewrite bin_step_entry.
    unfold events_of_bin. cbn [enumerate_from filter snd].
    destruct (in_range xe ye p) eqn:Ein.
    + assert (Hp : flat_bin xe ye p < length (ravel Hi))
        by (apply Hfit; [now left | exact Ein]).
      set (Hi' := append_at Hi (bin_index xe (fst p)) (bin_index ye (snd p)) k).
      assert (Hrav : ravel Hi' =
                     update (ravel Hi) (flat_bin xe ye p) (fun l => l ++ [k])).
      { unfold Hi', append_at, flat_bin. simpl. now rewrite Hshape. }
      assert (Hshape' : shape1 Hi' = length ye - 1) by exact Hshape.
      assert (Hfit' : forall q, In q pts -> in_range xe ye q = true ->
                                flat_bin xe ye q < length (ravel Hi')).
      { intros q Hq Hr. rewrite Hrav, update_length. apply Hfit; [now right|].
        exact Hr. }
      destruct (IH (S k) Hi' (N + 1) Hshape' Hfit') as (HN & Hs & Hl & Ht & Hnth).
      rewrite Hrav in Hl, Ht, Hnth.
      rewrite update_length in Hl. rewrite update_total_length in Ht by exact Hp.
      repeat split.
      * rewrite HN. simpl. lia.
      * exact Hs.
      * exact Hl.
      * rewrite Ht. simpl. lia.
      * intros b. rewrite Hnth. unfold events_of_bin. simpl andb.
        destruct (Nat.eqb (flat_bin xe ye p) b) eqn:Eb.
        -- apply Nat.eqb_eq in Eb. subst b.
           rewrite nth_update_eq by exact Hp. simpl.
           now rewrite <- app_assoc.
        -- apply Nat.eqb_neq in Eb.
           rewrite nth_update_ne by congruence. reflexivity.
    + destruct (IH (S k) Hi N Hshape
                  ltac:(intros q Hq; apply Hfit; now right))
        as (HN & Hs & Hl & Ht & Hnth).
      repeat split; assumption.
Qed.

End Loop.

End LoopProps.

(** ** [density2d]: the count grid and the index grid *)

Module HistogramProps.

Import Density2d BinningProps LoopProps.

Lemma grid_length {A : Type} (g : nat -> nat -> A) (ny nx s : nat) :
  length (flat_map (fun i => map (g i) (seq 0 ny)) (seq s nx)) = nx * ny.
Proof.
  revert s. induction nx as [|nx IH]; intros s; simpl; [reflexivity|].
  now rewrite length_app, length_map, length_seq, IH.
Qed.

(** Row-major addressing of the buffer built by [histogram2d]. *)
Lemma grid_nth {A : Type} (g : nat -> nat -> A) (ny nx s i j : nat) (d : A) :
  i < nx -> j < ny ->
  nth (i * ny + j) (flat_map (fun i => map (g i) (seq 0 ny)) (seq s nx)) d =
  g (s + i) j.
Proof.
  revert s i. induction nx as [|nx IH]; intros s i Hi Hj; [lia|].
  simpl. destruct i as [|i].
  - rewrite app_nth1 by (rewrite length_map, length_seq; simpl; lia).
    simpl. rewrite (nth_indep _ d (g s 0))
      by (rewrite length_map, length_seq; lia).
    rewrite (map_nth (g s)), seq_nth by lia. now rewrite Nat.add_0_r.
  - rewrite app_nth2 by (rewrite length_map, length_seq; simpl; lia).
    rewrite length_map, length_seq.
    replace (S i * ny + j - ny) with (i * ny + j) by (simpl; lia).
    rewrite IH by lia. f_equal. lia.
Qed.

Lemma flat_index_inj (a c i j n : nat) :
  c < n -> j < n -> a * n + c = i * n + j -> a = i /\ c = j.
Proof.
  intros Hc Hj H.
  assert (a = i)
    by (destruct (Nat.lt_trichotomy a i) as [L|[E|L]]; [nia | exact E | nia]).
  subst a. lia.
Qed.

Lemma histogram2d_inv (pts : list (Q * Q)) (bins : list Q * list Q)
  (H : array2 nat) (xe ye : list Q) :
  histogram2d pts bins = Ok (H, xe, ye) ->
  bins = (xe, ye) /\
  valid_edges xe = true /\ valid_edges ye = true /\
  shape0 H = length xe - 1 /\ shape1 H = length ye - 1 /\
  ravel H =
    flat_map (fun i =>
      map (fun j =>
        count_rows (fun p => in_bin xe i (fst p) && in_bin ye j (snd p)) pts)
        (seq 0 (length ye - 1)))
      (seq 0 (length xe - 1)).
Proof.
  unfold histogram2d. destruct bins as [xe' ye'].
  destruct (valid_edges xe' && valid_edges ye') eqn:E; [|discriminate].
  apply andb_prop in E. destruct E as [Ex Ey].
  intros [= <- <- <-]. simpl. repeat split; assumption.
Qed.

Lemma histogram2d_length (pts : list (Q * Q)) (bins : list Q * list Q)
  (H : array2 nat) (xe ye : list Q) :
  histogram2d pts bins = Ok (H, xe, ye) ->
  length (ravel H) = (length xe - 1) * (length ye - 1).
Proof.
  intros Hh. apply histogram2d_inv in Hh.
  destruct Hh as (_ & _ & _ & _ & _ & ->). apply grid_length.
Qed.

Section Grid.

Variables xe ye : list Q.
Hypothesis Hxe : valid_edges xe = true.
Hypothesis Hye : valid_edges ye = true.

Lemma in_range_iff (p : Q * Q) :
  in_range xe ye p = true <->
  (0 <= bin_index xe (fst p) <= Z.of_nat (length xe) - 2)%Z /\
  (0 <= bin_index ye (snd p) <= Z.of_nat (length ye) - 2)%Z.
Proof.
  unfold in_range. rewrite andb_true_iff, !negb_true_iff.
  now rewrite (not_outlier_iff xe _ Hxe), (not_outlier_iff ye _ Hye).
Qed.

Lemma flat_bin_lt (p : Q * Q) :
  in_range xe ye p = true ->
  flat_bin xe ye p < (length xe - 1) * (length ye - 1).
Proof.
  intros H. apply in_range_iff in H. destruct H as [Hx Hy].
  unfold flat_bin.
  assert (Z.to_nat (bin_index xe (fst p)) < length xe - 1) by lia.
  assert (Z.to_nat (bin_index ye (snd p)) < length ye - 1) by lia.
  nia.
Qed.

(** A cell of [H] counts the events that the loop sends to that cell. *)
Lemma cell_predicate (i j : nat) (p : Q * Q) :
  i < length xe - 1 -> j < length ye - 1 ->
  in_bin xe i (fst p) && in_bin ye j (snd p) =
  in_range xe ye p && Nat.eqb (flat_bin xe ye p) (i * (length ye - 1) + j).
Proof.
  intros Hi Hj. apply eq_true_iff_eq.
  rewrite !andb_true_iff, Nat.eqb_eq, in_range_iff.
  rewrite (in_bin_iff xe i _ Hxe), (in_bin_iff ye j _ Hye).
  unfold flat_bin. split.
  - intros [[Hbx _] [Hby _]]. rewrite Hbx, Hby, !Nat2Z.id.
    repeat split; lia.
  - intros [[Hx Hy] Hflat].
    assert (Hx' : Z.to_nat (bin_index xe (fst p)) < length xe - 1) by lia.
    assert (Hy' : Z.to_nat (bin_index ye (snd p)) < length ye - 1) by lia.
    destruct (flat_index_inj _ _ _ _ _ Hy' Hj Hflat) as [Ha Hb].
    repeat split; lia.
Qed.

Lemma events_of_bin_length (pts : list (Q * Q)) (k b : nat) :
  length (events_of_bin xe ye k pts b) =
  length (filter (fun p => in_range xe ye p && Nat.eqb (flat_bin xe ye p) b) pts).
Proof.
  unfold events_of_bin. rewrite length_map. revert k.
  induction pts as [|p pts IH]; intros k; simpl; [reflexivity|].
  destruct (in_range xe ye p && Nat.eqb (flat_bin xe ye p) b); simpl;
    now rewrite IH.
Qed.

End Grid.

(** What [bin_events] returns after a successful [histogram2d]. *)
Lemma bin_events_spec (pts : list (Q * Q)) (bins : list Q * list Q)
  (H : array2 nat) (xe ye : list Q) :
  histogram2d pts bins = Ok (H, xe, ye) ->
  let Hi := fst (bin_events pts H xe ye) in
  let N := snd (bin_events pts H xe ye) in
  N = length (filter (in_range xe ye) pts) /\
  length (ravel Hi) = length (ravel H) /\
  list_sum (map (@length nat) (ravel Hi)) = N /\
  (forall b, nth b (ravel Hi) [] = events_of_bin xe ye 0 pts b).
Proof.
  intros Hh. pose proof (histogram2d_length _ _ _ _ _ Hh) as Hlen.
  destruct (histogram2d_inv _ _ _ _ _ Hh) as (_ & Hxe & Hye & _ & Hs1 & _).
  cbv zeta. unfold bin_events. rewrite combine_map_pair.
  pose proof (bin_loop_spec xe ye pts 0 (empty_lists H) 0) as Hspec.
  cbv zeta in Hspec. simpl ravel in Hspec. simpl shape1 in Hspec.
  rewrite repeat_length in Hspec.
  destruct Hspec as (HN & _ & Hl & Ht & Hnth).
  - exact Hs1.
  - intros p _ Hp. rewrite Hlen. now apply flat_bin_lt.
  - assert (Hzero : forall m, list_sum (map (@length nat) (repeat [] m)) = 0).
    { induction m; simpl; auto. }
    rewrite Hzero in Ht. simpl in HN, Ht.
    repeat split.
    + exact HN.
    + exact Hl.
    + now rewrite Ht, HN.
    + intros b. now rewrite Hnth, nth_repeat.
Qed.

(** Cell by cell, the count of [H] is the length of the list of [Hi]. *)
Lemma counts_agree (pts : list (Q * Q)) (bins : list Q * list Q)
  (H : array2 nat) (xe ye : list Q) :
  histogram2d pts bins = Ok (H, xe, ye) ->
  ravel H = map (@length nat) (ravel (fst (bin_events pts H xe ye))).
Proof.
  intros Hh. pose proof (histogram2d_length _ _ _ _ _ Hh) as Hlen.
  destruct (histogram2d_inv _ _ _ _ _ Hh) as (_ & Hxe & Hye & _ & _ & Hrav).
  destruct (bin_events_spec _ _ _ _ _ Hh) as (_ & Hl & _ & Hnth).
  apply (nth_ext _ _ 0 0); [now rewrite length_map, Hl|].
  intros b Hb. rewrite Hlen in Hb.
  rewrite (nth_indep (map (@length nat) (ravel (fst (bin_events pts H xe ye))))
             0 (length (@nil nat)))
    by (rewrite length_map, Hl, Hlen; exact Hb).
  rewrite (map_nth (@length nat)), Hnth, (events_of_bin_length xe ye).
  set (ny := length ye - 1) in *.
  assert (Hny : ny <> 0) by (intros E; rewrite E in Hb; lia).
  assert (Hj : b mod ny < ny) by (now apply Nat.mod_upper_bound).
  assert (Hi : b / ny < length xe - 1)
    by (apply Nat.Div0.div_lt_upper_bound; lia).
  assert (Hb' : b = b / ny * ny + b mod ny)
    by (rewrite (Nat.div_mod_eq b ny) at 1; lia).
  rewrite Hrav. rewrite Hb' at 1. rewrite grid_nth by assumption.
  unfold count_rows. f_equal. apply filter_ext. intros p.
  rewrite (cell_predicate xe ye Hxe Hye) by assumption.
  fold ny. rewrite Nat.add_0_l. now rewrite <- Hb'.
Qed.

End HistogramProps.

(** ** [density2d]: which events reach which bin *)

Module PopulationProps.

Import Density2d BinningProps LoopProps HistogramProps.

Lemma events_of_bin_In (xe ye : list Q) (pts : list (Q * Q)) (b i : nat) :
  forall k,
    In i (events_of_bin xe ye k pts b) <->
    exists p, k <= i /\ nth_error pts (i - k) = Some p /\
              in_range xe ye p = true /\ flat_bin xe ye p = b.
Proof.
  unfold events_of_bin.
  induction pts as [|p pts IH]; intros k; cbn [enumerate_from filter snd].
  - simpl. split; [easy|]. intros (p & _ & H & _). destruct (i - k); discriminate.
  - assert (Hrest :
      (exists q, S k <= i /\ nth_error pts (i - S k) = Some q /\
                 in_range xe ye q = true /\ flat_bin xe ye q = b) <->
      (exists q, k <= i /\ i <> k /\ nth_error (p :: pts) (i - k) = Some q /\
                 in_range xe ye q = true /\ flat_bin xe ye q = b)).
    { split; intros (q & H1 & H2); exists q.
      - destruct H2 as (H2 & H3). repeat split; try lia; try tauto.
        replace (i - k) with (S (i - S k)) by lia. exact H2.
      - destruct H2 as (Hne & H2 & H3). repeat split; try lia; try tauto.
        replace (i - k) with (S (i - S k)) in H2 by lia. exact H2. }
    destruct (in_range xe ye p && Nat.eqb (flat_bin xe ye p) b) eqn:E.
    + apply andb_prop in E. destruct E as [E1 E2]. apply Nat.eqb_eq in E2.
      simpl. rewrite IH, Hrest. split.
      * intros [<- | (q & H1 & _ & H2)].
        -- exists p. rewrite Nat.sub_diag. simpl. auto.
        -- exists q. tauto.
      * intros (q & H1 & H2).
        destruct (Nat.eq_dec i k) as [->|Hne]; [now left|].
        right. exists q. tauto.
    + rewrite IH, Hrest. split.
      * intros (q & H1 & _ & H2). exists q. tauto.
      * intros (q & H1 & H2 & H3 & H4).
        destruct (Nat.eq_dec i k) as [->|Hne].
        -- rewrite Nat.sub_diag in H2. simpl in H2. injection H2 as <-.
           rewrite H3, H4, Nat.eqb_refl in E. discriminate.
        -- exists q. tauto.
Qed.

Lemma hd_nth (edges : list Q) : hd 0%Q edges = nth 0 edges 0%Q.
Proof. now destruct edges. Qed.

(** The loop keeps a coordinate exactly when it lies between the first and
    the last edge, both included. *)
Lemma not_outlier_within (edges : list Q) (v : Q) :
  valid_edges edges = true ->
  negb (Z_in (bin_index edges v) (outliers edges)) = within edges v.
Proof.
  intros Hv. apply eq_true_iff_eq.
  rewrite negb_true_iff, (not_outlier_iff edges v Hv).
  destruct (valid_edges_inv edges Hv) as [Hlen Hinc].
  pose proof (digitize_spec edges v Hinc) as (Hd & Hlo & Hhi).
  pose proof (increasing_nth edges Hinc 0 (length edges - 1) ltac:(lia)) as Hfl.
  unfold within, bin_index. rewrite hd_nth, last_nth in *.
  rewrite andb_true_iff, !Qle_bool_iff.
  destruct (Qeq_bool v (nth (length edges - 1) edges 0%Q)) eqn:E.
  - apply Qeq_bool_iff in E. split; [intros _; lra | intros _; lia].
  - apply Qeq_bool_neq in E. split.
    + intros Hk. split.
      * apply Hlo. lia.
      * specialize (Hhi (length edges - 1) ltac:(lia)). lra.
    + intros [H0 H1].
      destruct (Nat.eq_dec (digitize v edges) 0) as [E0|E0].
      { specialize (Hhi 0 ltac:(lia)). lra. }
      destruct (Nat.eq_dec (digitize v edges) (length edges)) as [E1|E1].
      { specialize (Hlo (length edges - 1) ltac:(lia)). exfalso. apply E.
        apply Qle_antisym; assumption. }
      lia.
Qed.

Lemma in_range_within (xe ye : list Q) (p : Q * Q) :
  valid_edges xe = true -> valid_edges ye = true ->
  in_range xe ye p = within xe (fst p) && within ye (snd p).
Proof.
  intros Hx Hy. unfold in_range.
  now rewrite (not_outlier_within xe _ Hx), (not_outlier_within ye _ Hy).
Qed.

(** A coordinate equal to the last edge gets the index of the last bin. *)
Lemma bin_index_last_edge (edges : list Q) (v : Q) :
  (v == last edges 0)%Q ->
  bin_index edges v = (Z.of_nat (length edges) - 2)%Z.
Proof.
  intros H. unfold bin_index. apply Qeq_bool_iff in H. now rewrite H.
Qed.

End PopulationProps.

(** ** [density2d]: conservation and edge reconciliation *)

Module BinningClaims.

Import Density2d BinningProps LoopProps HistogramProps PopulationProps.

(** C4: after a successful [np.histogram2d], the sum of all raw counts of
    [H] equals the counter [N] kept while the per-bin lists of [Hi] are
    filled; the lists of [Hi] hold [N] events in total, and [N] is the
    number of events that lie in the edge range on both axes. *)
Theorem histogram_total_equals_population :
  forall (pts : list (Q * Q)) (bins : list Q * list Q)
         (H : array2 nat) (xe ye : list Q),
    histogram2d pts bins = Ok (H, xe, ye) ->
    let Hi := fst (bin_events pts H xe ye) in
    let N := snd (bin_events pts H xe ye) in
    list_sum (ravel H) = N /\
    list_sum (map (@length nat) (ravel Hi)) = N /\
    N = length (filter (fun p => within xe (fst p) && within ye (snd p)) pts).
Proof.
  intros pts bins H xe ye Hh. cbv zeta.
  destruct (histogram2d_inv _ _ _ _ _ Hh) as (_ & Hxe & Hye & _).
  destruct (bin_events_spec _ _ _ _ _ Hh) as (HN & _ & Ht & _).
  repeat split.
  - now rewrite (counts_agree _ _ _ _ _ Hh).
  - exact Ht.
  - rewrite HN. f_equal. apply filter_ext. intros p.
    now apply in_range_within.
Qed.

Lemma histogram_total_equals_population_witness :
  let pts := [(2, 1 # 2); (1 # 2, 2); (3, 3); (0, 0); (-1, 1)]%Q in
  let xe := [0; 1; 2]%Q in
  let H := mkArray2 2 2 [1; 1; 1; 0] in
  histogram2d pts (xe, xe) = Ok (H, xe, xe) /\
  list_sum (ravel H) = snd (bin_events pts H xe xe) /\
  list_sum (map (@length nat) (ravel (fst (bin_events pts H xe xe)))) =
    snd (bin_events pts H xe xe) /\
  snd (bin_events pts H xe xe) =
    length (filter (fun p => within xe (fst p) && within xe (snd p)) pts).
Proof.
  cbv zeta. split; [reflexivity|].
  apply (histogram_total_equals_population
           [(2, 1 # 2); (1 # 2, 2); (3, 3); (0, 0); (-1, 1)]%Q
           ([0; 1; 2]%Q, [0; 1; 2]%Q) (mkArray2 2 2 [1; 1; 1; 0])
           [0; 1; 2]%Q [0; 1; 2]%Q).
  reflexivity.
Defined.

(** C5: a coordinate equal to the last bin edge of its axis is given the
    index of the last bin, and such an event is stored in that bin when its
    other coordinate is in range; an event with a coordinate before the
    first edge or after the last edge of its axis is stored in no bin, and
    the population [N] counts exactly the events inside on both axes. *)
Theorem right_edge_in_last_bin :
  forall (pts : list (Q * Q)) (bins : list Q * list Q)
         (H : array2 nat) (xe ye : list Q),
    histogram2d pts bins = Ok (H, xe, ye) ->
    let Hi := fst (bin_events pts H xe ye) in
    let N := snd (bin_events pts H xe ye) in
    (forall i p,
        nth_error pts i = Some p ->
        (fst p == last xe 0)%Q -> within ye (snd p) = true ->
        bin_index xe (fst p) = (Z.of_nat (length xe) - 2)%Z /\
        In i (nth ((length xe - 2) * (length ye - 1) +
                   Z.to_nat (bin_index ye (snd p))) (ravel Hi) [])) /\
    (forall i p,
        nth_error pts i = Some p ->
        (snd p == last ye 0)%Q -> within xe (fst p) = true ->
        bin_index ye (snd p) = (Z.of_nat (length ye) - 2)%Z /\
        In i (nth (Z.to_nat (bin_index xe (fst p)) * (length ye - 1) +
                   (length ye - 2)) (ravel Hi) [])) /\
    (forall i p,
        nth_error pts i = Some p ->
        within xe (fst p) && within ye (snd p) = false ->
        forall b, ~ In i (nth b (ravel Hi) [])) /\
    N = length (filter (fun p => within xe (fst p) && within ye (snd p)) pts).
Proof.
  intros pts bins H xe ye Hh. cbv zeta.
  destruct (histogram2d_inv _ _ _ _ _ Hh) as (_ & Hxe & Hye & _).
  destruct (bin_events_spec _ _ _ _ _ Hh) as (HN & _ & _ & Hnth).
  destruct (valid_edges_inv _ Hxe) as [Hlx Hix].
  destruct (valid_edges_inv _ Hye) as [Hly Hiy].
  assert (Hlastx : within xe (last xe 0%Q) = true).
  { unfold within. rewrite hd_nth, last_nth, andb_true_iff, !Qle_bool_iff.
    pose proof (increasing_nth xe Hix 0 (length xe - 1) ltac:(lia)).
    split; lra. }
  assert (Hlasty : within ye (last ye 0%Q) = true).
  { unfold within. rewrite hd_nth, last_nth, andb_true_iff, !Qle_bool_iff.
    pose proof (increasing_nth ye Hiy 0 (length ye - 1) ltac:(lia)).
    split; lra. }
  assert (Hwithin_eq : forall edges v w,
             (v == w)%Q -> within edges w = true -> within edges v = true).
  { intros edges v w E. unfold within.
    rewrite !andb_true_iff, !Qle_bool_iff. rewrite E. tauto. }
  split; [|split; [|split]].
  - intros i p Hp Hx Hy. split; [now apply bin_index_last_edge|].
    rewrite Hnth. apply events_of_bin_In. exists p. rewrite Nat.sub_0_r.
    repeat split; [lia | assumption | |].
    + rewrite (in_range_within _ _ _ Hxe Hye), Hy.
      now rewrite (Hwithin_eq xe _ _ Hx Hlastx).
    + unfold flat_bin. rewrite (bin_index_last_edge _ _ Hx). f_equal. f_equal.
      lia.
  - intros i p Hp Hy Hx. split; [now apply bin_index_last_edge|].
    rewrite Hnth. apply events_of_bin_In. exists p. rewrite Nat.sub_0_r.
    repeat split; [lia | assumption | |].
    + rewrite (in_range_within _ _ _ Hxe Hye), Hx.
      now rewrite (Hwithin_eq ye _ _ Hy Hlasty).
    + unfold flat_bin. rewrite (bin_index_last_edge _ _ Hy). f_equal. lia.
  - intros i p Hp Hout b Hin. rewrite Hnth in Hin.
    apply events_of_bin_In in Hin. destruct Hin as (q & _ & Hq & Hr & _).
    rewrite Nat.sub_0_r, Hp in Hq. injection Hq as <-.
    rewrite (in_range_within _ _ _ Hxe Hye) in Hr. congruence.
  - rewrite HN. f_equal. apply filter_ext. intros p.
    now apply in_range_within.
Qed.

Lemma right_edge_in_last_bin_witness :
  let pts := [(2, 1 # 2); (1 # 2, 2); (3, 3); (0, 0); (-1, 1)]%Q in
  let xe := [0; 1; 2]%Q in
  let H := mkArray2 2 2 [1; 1; 1; 0] in
  histogram2d pts (xe, xe) = Ok (H, xe, xe) /\
  ravel (fst (bin_events pts H xe xe)) = [[3]; [1]; [0]; []] /\
  snd (bin_events pts H xe xe) = 3 /\
  In 0 (nth ((length xe - 2) * (length xe - 1) +
             Z.to_nat (bin_index xe (1 # 2))) (ravel (fst (bin_events pts H xe xe))) []) /\
  (forall b, ~ In 2 (nth b (ravel (fst (bin_events pts H xe xe))) [])).
Proof.
  cbv zeta. split; [reflexivity|]. split; [reflexivity|]. split; [reflexivity|].
  pose proof (right_edge_in_last_bin
                [(2, 1 # 2); (1 # 2, 2); (3, 3); (0, 0); (-1, 1)]%Q
                ([0; 1; 2]%Q, [0; 1; 2]%Q) (mkArray2 2 2 [1; 1; 1; 0])
                [0; 1; 2]%Q [0; 1; 2]%Q eq_refl) as (Hx & _ & Hout & _).
  split.
  - apply (Hx 0 (2, 1 # 2)%Q); reflexivity.
  - apply (Hout 2 (3, 3)%Q); reflexivity.
Defined.

End BinningClaims.

(** ** Rounding to binary64 *)

Module RoundingProps.

Import Density2d.

Local Open Scope Q_scope.

(** *** Powers of two *)

Lemma two_neq0 : ~ 2 == 0.
Proof. intro H. discriminate H. Qed.

Lemma pow2_pos e : 0 < pow2 e.
Proof. apply Qpower_0_lt. reflexivity. Qed.

Lemma pow2_plus a b : pow2 (a + b) == pow2 a * pow2 b.
Proof. apply Qpower_plus, two_neq0. Qed.

Lemma pow2_le a b : (a <= b)%Z -> pow2 a <= pow2 b.
Proof. intros H. apply Qpower_le_compat_l; [exact H | discriminate]. Qed.

Lemma pow2_Z n : (0 <= n)%Z -> pow2 n == inject_Z (2 ^ n).
Proof. intros H. unfold pow2. rewrite (Zpower_Qpower 2 n H). reflexivity. Qed.

Lemma inject_Z_pos z : (0 < z)%Z -> 0 < inject_Z z.
Proof. intros H. unfold Qlt. simpl. lia. Qed.

(** *** The leading bit *)

Lemma Q_as_div (x : Q) : x == inject_Z (Qnum x) / inject_Z (Zpos (Qden x)).
Proof. destruct x as [a b]. simpl. apply Qmake_Qdiv. Qed.

Lemma ilog2_spec (x : Q) :
  0 < x -> pow2 (ilog2 x) <= x /\ x < pow2 (ilog2 x + 1).
Proof.
  intros Hx.
  assert (Ha : (0 < Qnum x)%Z).
  { destruct x as [a b]. unfold Qlt in Hx. simpl in *. lia. }
  set (a := Qnum x) in *. set (b := Zpos (Qden x)).
  assert (Hb : (0 < b)%Z) by (unfold b; lia).
  destruct (Z.log2_spec a Ha) as [Ha1 Ha2].
  destruct (Z.log2_spec b Hb) as [Hb1 Hb2].
  pose proof (Z.log2_nonneg a) as Hla. pose proof (Z.log2_nonneg b) as Hlb.
  set (la := Z.log2 a) in *. set (lb := Z.log2 b) in *.
  assert (Hxe : x == inject_Z a / inject_Z b) by apply Q_as_div.
  assert (HbQ : 0 < inject_Z b) by (apply inject_Z_pos; exact Hb).
  assert (Hup : x < pow2 (la - lb + 1)).
  { replace (la - lb + 1)%Z with ((la + 1) + - lb)%Z by lia.
    rewrite pow2_plus. unfold pow2 at 2. rewrite Qpower_opp. fold (pow2 lb).
    rewrite (pow2_Z (la + 1)) by lia. rewrite (pow2_Z lb) by lia.
    rewrite Hxe.
    assert (HB : 0 < inject_Z (2 ^ lb)).
    { apply inject_Z_pos. apply Z.pow_pos_nonneg; lia. }
    apply Qlt_shift_div_r; [exact HbQ|].
    assert (Hz : inject_Z a * inject_Z (2 ^ lb) < inject_Z (2 ^ (la + 1)) * inject_Z b).
    { rewrite <- !inject_Z_mult, <- Zlt_Qlt. unfold Z.succ in *. nia. }
    apply (Qmult_lt_r _ _ _ HB).
    assert (E : inject_Z (2 ^ (la + 1)) * / inject_Z (2 ^ lb) * inject_Z b * inject_Z (2 ^ lb)
                == inject_Z (2 ^ (la + 1)) * inject_Z b).
    { field. intro E. rewrite E in HB. apply (Qlt_irrefl 0), HB. }
    rewrite E. exact Hz. }
  assert (Hlo : pow2 (la - lb - 1) <= x).
  { replace (la - lb - 1)%Z with (la + - (lb + 1))%Z by lia.
    rewrite pow2_plus. unfold pow2 at 2. rewrite Qpower_opp. fold (pow2 (lb + 1)).
    rewrite (pow2_Z la) by lia. rewrite (pow2_Z (lb + 1)) by lia.
    rewrite Hxe.
    assert (HB : 0 < inject_Z (2 ^ (lb + 1))).
    { apply inject_Z_pos. apply Z.pow_pos_nonneg; lia. }
    apply Qle_shift_div_l; [exact HbQ|].
    assert (Hz : inject_Z (2 ^ la) * inject_Z b <= inject_Z a * inject_Z (2 ^ (lb + 1))).
    { rewrite <- !inject_Z_mult, <- Zle_Qle. unfold Z.succ in *. nia. }
    apply (Qmult_le_r _ _ _ HB).
    assert (E : inject_Z (2 ^ la) * / inject_Z (2 ^ (lb + 1)) * inject_Z b * inject_Z (2 ^ (lb + 1))
                == inject_Z (2 ^ la) * inject_Z b).
    { field. intro E. rewrite E in HB. apply (Qlt_irrefl 0), HB. }
    rewrite E. exact Hz. }
  unfold ilog2. fold a b la lb.
  destruct (Qle_bool (pow2 (la - lb)) x) eqn:E.
  - apply Qle_bool_iff in E. split; assumption.
  - split; [exact Hlo|].
    replace (la - lb - 1 + 1)%Z with (la - lb)%Z by lia.
    apply Qnot_le_lt. intro H. apply Qle_bool_iff in H. congruence.
Qed.

(** *** Rounding to an integer *)

Lemma round_half_even_cases (y : Q) :
  (Qfloor y <= round_half_even y <= Qfloor y + 1)%Z.
Proof.
  unfold round_half_even.
  destruct (Qcompare (y - inject_Z (Qfloor y)) (1 # 2)); [destruct (Z.even _)| |]; lia.
Qed.

Lemma round_half_even_Z (z : Z) : round_half_even (inject_Z z) = z.
Proof.
  unfold round_half_even. rewrite Qfloor_Z.
  assert (H : inject_Z z - inject_Z z < 1 # 2) by lra.
  rewrite (proj1 (Qlt_alt _ _) H). reflexivity.
Qed.

Lemma round_half_even_comp (y y' : Q) :
  y == y' -> round_half_even y = round_half_even y'.
Proof.
  intros H. unfold round_half_even. rewrite (Qfloor_comp _ _ H).
  assert (Hm : y - inject_Z (Qfloor y') == y' - inject_Z (Qfloor y'))
    by (rewrite H; reflexivity).
  rewrite (Qcompare_comp _ _ Hm _ _ (Qeq_refl (1 # 2))). reflexivity.
Qed.

Lemma round_half_even_mono (y1 y2 : Q) :
  y1 <= y2 -> (round_half_even y1 <= round_half_even y2)%Z.
Proof.
  intros H.
  pose proof (Qfloor_resp_le _ _ H) as Hf.
  pose proof (round_half_even_cases y1) as H1. pose proof (round_half_even_cases y2) as H2.
  destruct (Z.eq_dec (Qfloor y1) (Qfloor y2)) as [E | NE]; [|lia].
  unfold round_half_even. rewrite <- E.
  destruct (Qcompare_spec (y1 - inject_Z (Qfloor y1)) (1 # 2)) as [E1 | L1 | G1];
    destruct (Qcompare_spec (y2 - inject_Z (Qfloor y1)) (1 # 2)) as [E2 | L2 | G2];
    try destruct (Z.even (Qfloor y1)); try lia; exfalso; lra.
Qed.

Lemma round_half_even_lower (z : Z) (y : Q) :
  inject_Z z <= y -> (z <= round_half_even y)%Z.
Proof.
  intros H. rewrite <- (round_half_even_Z z). apply round_half_even_mono, H.
Qed.

Lemma round_half_even_upper (z : Z) (y : Q) :
  y <= inject_Z z -> (round_half_even y <= z)%Z.
Proof.
  intros H. rewrite <- (round_half_even_Z z). apply round_half_even_mono, H.
Qed.

(** *** Rounding to a double: sign, order, integers *)

Lemma round_binary64_pos_eq (x : Q) :
  0 < x ->
  round_binary64 x =
  inject_Z (round_half_even (x / pow2 (ilog2 x - 52))) * pow2 (ilog2 x - 52).
Proof.
  intros H. unfold round_binary64. rewrite (proj1 (Qgt_alt _ _) H). reflexivity.
Qed.

Lemma round_binary64_neg_eq (x : Q) :
  x < 0 -> round_binary64 x = - round_binary64 (- x).
Proof.
  intros H. assert (H' : 0 < - x) by lra.
  rewrite (round_binary64_pos_eq _ H').
  unfold round_binary64. rewrite (proj1 (Qlt_alt _ _) H). reflexivity.
Qed.

Lemma round_binary64_zero (x : Q) : x == 0 -> round_binary64 x = 0.
Proof.
  intros H. unfold round_binary64. rewrite (proj1 (Qeq_alt _ _) H). reflexivity.
Qed.

Lemma scaled_bounds (x : Q) :
  0 < x ->
  inject_Z (2 ^ 52) <= x / pow2 (ilog2 x - 52) /\
  x / pow2 (ilog2 x - 52) <= inject_Z (2 ^ 53).
Proof.
  intros Hx. destruct (ilog2_spec x Hx) as [Hlo Hhi].
  set (k := ilog2 x) in *.
  pose proof (pow2_pos (k - 52)) as He.
  assert (E1 : pow2 k == inject_Z (2 ^ 52) * pow2 (k - 52)).
  { replace k with (52 + (k - 52))%Z at 1 by lia.
    rewrite pow2_plus, (pow2_Z 52) by lia. reflexivity. }
  assert (E2 : pow2 (k + 1) == inject_Z (2 ^ 53) * pow2 (k - 52)).
  { replace (k + 1)%Z with (53 + (k - 52))%Z at 1 by lia.
    rewrite pow2_plus, (pow2_Z 53) by lia. reflexivity. }
  split.
  - apply Qle_shift_div_l; [exact He|]. rewrite <- E1. exact Hlo.
  - apply Qle_shift_div_r; [exact He|]. rewrite <- E2. apply Qlt_le_weak, Hhi.
Qed.

Lemma round_binary64_bounds (x : Q) :
  0 < x ->
  pow2 (ilog2 x) <= round_binary64 x /\ round_binary64 x <= pow2 (ilog2 x + 1).
Proof.
  intros Hx. rewrite (round_binary64_pos_eq _ Hx).
  destruct (scaled_bounds x Hx) as [Hlo Hhi].
  set (k := ilog2 x) in *.
  pose proof (pow2_pos (k - 52)) as He.
  apply round_half_even_lower in Hlo. apply round_half_even_upper in Hhi.
  rewrite Zle_Qle in Hlo, Hhi.
  set (m := inject_Z (round_half_even (x / pow2 (k - 52)))) in *.
  assert (E1 : pow2 k == inject_Z (2 ^ 52) * pow2 (k - 52)).
  { replace k with (52 + (k - 52))%Z at 1 by lia.
    rewrite pow2_plus, (pow2_Z 52) by lia. reflexivity. }
  assert (E2 : pow2 (k + 1) == inject_Z (2 ^ 53) * pow2 (k - 52)).
  { replace (k + 1)%Z with (53 + (k - 52))%Z at 1 by lia.
    rewrite pow2_plus, (pow2_Z 53) by lia. reflexivity. }
  rewrite E1, E2. split; apply Qmult_le_r; assumption.
Qed.

Lemma round_binary64_pos (x : Q) : 0 < x -> 0 < round_binary64 x.
Proof.
  intros Hx. destruct (round_binary64_bounds x Hx) as [H _].
  eapply Qlt_le_trans; [apply (pow2_pos (ilog2 x)) | exact H].
Qed.

Lemma ilog2_mono (x y : Q) : 0 < x -> x <= y -> (ilog2 x <= ilog2 y)%Z.
Proof.
  intros Hx Hxy.
  assert (Hy : 0 < y) by lra.
  destruct (ilog2_spec x Hx) as [Hx1 _].
  destruct (ilog2_spec y Hy) as [_ Hy2].
  destruct (Z_le_gt_dec (ilog2 x) (ilog2 y)) as [H | H]; [exact H | exfalso].
  assert (Hp : pow2 (ilog2 y + 1) <= pow2 (ilog2 x)) by (apply pow2_le; lia).
  lra.
Qed.

Lemma round_binary64_mono_pos (x y : Q) :
  0 < x -> x <= y -> round_binary64 x <= round_binary64 y.
Proof.
  intros Hx Hxy.
  assert (Hy : 0 < y) by lra.
  pose proof (ilog2_mono x y Hx Hxy) as Hk.
  destruct (Z.eq_dec (ilog2 x) (ilog2 y)) as [E | NE].
  - rewrite (round_binary64_pos_eq _ Hx), (round_binary64_pos_eq _ Hy), E.
    pose proof (pow2_pos (ilog2 y - 52)) as He.
    apply Qmult_le_r; [exact He|].
    rewrite <- Zle_Qle. apply round_half_even_mono.
    apply Qle_shift_div_l; [exact He|].
    assert (E' : x / pow2 (ilog2 y - 52) * pow2 (ilog2 y - 52) == x).
    { field. intro E0. rewrite E0 in He. apply (Qlt_irrefl 0), He. }
    rewrite E'. exact Hxy.
  - destruct (round_binary64_bounds x Hx) as [_ Hx2].
    destruct (round_binary64_bounds y Hy) as [Hy1 _].
    assert (Hp : pow2 (ilog2 x + 1) <= pow2 (ilog2 y)) by (apply pow2_le; lia).
    lra.
Qed.

Lemma round_binary64_mono (x y : Q) :
  x <= y -> round_binary64 x <= round_binary64 y.
Proof.
  intros Hxy.
  destruct (Qcompare_spec x 0) as [Ex | Lx | Gx].
  - rewrite (round_binary64_zero _ Ex).
    destruct (Qcompare_spec y 0) as [Ey | Ly | Gy].
    + rewrite (round_binary64_zero _ Ey). apply Qle_refl.
    + exfalso. lra.
    + apply Qlt_le_weak, round_binary64_pos, Gy.
  - rewrite (round_binary64_neg_eq _ Lx).
    assert (Hx' : 0 < - x) by lra.
    pose proof (round_binary64_pos _ Hx') as Hpx.
    destruct (Qcompare_spec y 0) as [Ey | Ly | Gy].
    + rewrite (round_binary64_zero _ Ey). lra.
    + rewrite (round_binary64_neg_eq _ Ly).
      assert (Hy' : 0 < - y) by lra.
      assert (Hle : - y <= - x) by lra.
      pose proof (round_binary64_mono_pos _ _ Hy' Hle). lra.
    + pose proof (round_binary64_pos _ Gy). lra.
  - apply round_binary64_mono_pos; assumption.
Qed.

Lemma round_binary64_comp (x y : Q) :
  x == y -> round_binary64 x == round_binary64 y.
Proof.
  intros H. apply Qle_antisym; apply round_binary64_mono; rewrite H; apply Qle_refl.
Qed.

Lemma round_binary64_Z (z : Z) :
  (0 <= z < 2 ^ 53)%Z -> round_binary64 (inject_Z z) == inject_Z z.
Proof.
  intros [H0 H1].
  destruct (Z.eq_dec z 0) as [-> | Hz].
  - reflexivity.
  - assert (Hx : 0 < inject_Z z) by (apply inject_Z_pos; lia).
    rewrite (round_binary64_pos_eq _ Hx).
    destruct (ilog2_spec _ Hx) as [Hlo _].
    set (k := ilog2 (inject_Z z)) in *.
    assert (Hk : (k - 52 <= 0)%Z).
    { destruct (Z_le_gt_dec k 52) as [H | H]; [lia | exfalso].
      assert (Hp : pow2 53 <= pow2 k) by (apply pow2_le; lia).
      rewrite (pow2_Z 53) in Hp by lia.
      assert (Hz1 : inject_Z z < inject_Z (2 ^ 53)) by (rewrite <- Zlt_Qlt; exact H1).
      lra. }
    set (e := (k - 52)%Z) in *.
    pose proof (pow2_pos e) as He.
    assert (Hinv : / pow2 e == inject_Z (2 ^ (- e))).
    { rewrite <- (pow2_Z (- e)) by lia. unfold pow2. rewrite Qpower_opp. reflexivity. }
    assert (Hy : inject_Z z / pow2 e == inject_Z (z * 2 ^ (- e))).
    { unfold Qdiv. rewrite Hinv, inject_Z_mult. reflexivity. }
    assert (Hr : round_half_even (inject_Z z / pow2 e) = (z * 2 ^ (- e))%Z).
    { rewrite (round_half_even_comp _ _ Hy). apply round_half_even_Z. }
    rewrite Hr, inject_Z_mult, <- Hinv. field.
    intro E0. rewrite E0 in He. apply (Qlt_irrefl 0), He.
Qed.

Lemma round_binary64_nonpos (x : Q) : x <= 0 -> round_binary64 x <= 0.
Proof.
  intros H. apply (round_binary64_mono x 0) in H.
  rewrite (round_binary64_zero 0) in H by reflexivity. exact H.
Qed.

Lemma round_half_even_nearest (y : Q) :
  - (1 # 2) <= inject_Z (round_half_even y) - y /\
  inject_Z (round_half_even y) - y <= 1 # 2.
Proof.
  pose proof (Qfloor_le y) as Hlo. pose proof (Qlt_floor y) as Hhi.
  rewrite inject_Z_plus in Hhi. change (inject_Z 1) with 1 in Hhi.
  unfold round_half_even.
  destruct (Qcompare_spec (y - inject_Z (Qfloor y)) (1 # 2)) as [E | L | G];
    [destruct (Z.even (Qfloor y))| |];
    rewrite ?inject_Z_plus; change (inject_Z 1) with 1; split; lra.
Qed.

(** The result is a multiple of [2^e] with a mantissa of 53 bits (or the
    next power of two), at most half a unit in the last place from [x]. *)
Lemma round_binary64_nearest (x : Q) :
  0 < x ->
  let e := (ilog2 x - 52)%Z in
  exists m : Z,
    round_binary64 x = inject_Z m * pow2 e /\
    (2 ^ 52 <= m <= 2 ^ 53)%Z /\
    - ((1 # 2) * pow2 e) <= round_binary64 x - x /\
    round_binary64 x - x <= (1 # 2) * pow2 e.
Proof.
  intros Hx e. exists (round_half_even (x / pow2 e)).
  rewrite (round_binary64_pos_eq _ Hx). fold e.
  split; [reflexivity|].
  destruct (scaled_bounds x Hx) as [Hlo Hhi]. fold e in Hlo, Hhi.
  split; [split; [now apply round_half_even_lower | now apply round_half_even_upper]|].
  pose proof (pow2_pos e) as He.
  destruct (round_half_even_nearest (x / pow2 e)) as [H1 H2].
  set (m := inject_Z (round_half_even (x / pow2 e))) in *.
  assert (Ex : x == (x / pow2 e) * pow2 e) by (field; lra).
  set (y := x / pow2 e) in *.
  split.
  - setoid_replace (m * pow2 e - x) with ((m - y) * pow2 e) by (rewrite Ex at 1; ring).
    setoid_replace (- ((1 # 2) * pow2 e)) with ((- (1 # 2)) * pow2 e) by ring.
    apply Qmult_le_r; assumption.
  - setoid_replace (m * pow2 e - x) with ((m - y) * pow2 e) by (rewrite Ex at 1; ring).
    apply Qmult_le_r; assumption.
Qed.

(** *** The product [gate_fraction*float(N)] *)

Lemma count_as_Q_nonneg (N : nat) : 0 <= inject_Z (Z.of_nat N).
Proof. rewrite <- (Zle_Qle 0). lia. Qed.

Lemma round_binary64_one : round_binary64 1 == 1.
Proof. apply (round_binary64_Z 1). lia. Qed.

Lemma scaled_count_mono (f1 f2 : Q) (N : nat) :
  f1 <= f2 -> scaled_count f1 N <= scaled_count f2 N.
Proof.
  intros Hf. unfold scaled_count.
  pose proof (round_binary64_mono _ _ Hf) as Hr.
  pose proof (count_as_Q_nonneg N) as HN.
  assert (Hp : round_binary64 f1 * inject_Z (Z.of_nat N)
               <= round_binary64 f2 * inject_Z (Z.of_nat N)) by nra.
  destruct (Z.of_nat N <? 2 ^ 53)%Z; [apply round_binary64_mono|]; exact Hp.
Qed.

Lemma scaled_count_pos (f : Q) (N : nat) :
  0 < f -> (1 <= N)%nat -> 0 < scaled_count f N.
Proof.
  intros Hf HN. unfold scaled_count.
  pose proof (round_binary64_pos _ Hf) as Hr.
  assert (H1 : 1 <= inject_Z (Z.of_nat N)) by (rewrite <- (Zle_Qle 1); lia).
  assert (Hp : 0 < round_binary64 f * inject_Z (Z.of_nat N)) by nra.
  destruct (Z.of_nat N <? 2 ^ 53)%Z; [apply round_binary64_pos|]; exact Hp.
Qed.

Lemma scaled_count_le (f : Q) (N : nat) :
  f <= 1 -> scaled_count f N <= inject_Z (Z.of_nat N).
Proof.
  intros Hf. unfold scaled_count.
  pose proof (round_binary64_mono _ _ Hf) as Hr.
  rewrite round_binary64_one in Hr.
  pose proof (count_as_Q_nonneg N) as HN.
  assert (Hp : round_binary64 f * inject_Z (Z.of_nat N)
               <= inject_Z (Z.of_nat N)) by nra.
  destruct (Z.of_nat N <? 2 ^ 53)%Z eqn:E; [|exact Hp].
  apply Z.ltb_lt in E.
  rewrite <- (round_binary64_Z (Z.of_nat N)) at 2 by lia.
  apply round_binary64_mono, Hp.
Qed.

Lemma scaled_count_one (N : nat) : scaled_count 1 N == inject_Z (Z.of_nat N).
Proof.
  unfold scaled_count.
  assert (Hp : round_binary64 1 * inject_Z (Z.of_nat N) == inject_Z (Z.of_nat N))
    by (rewrite round_binary64_one; ring).
  destruct (Z.of_nat N <? 2 ^ 53)%Z eqn:E; [|exact Hp].
  apply Z.ltb_lt in E.
  rewrite (round_binary64_comp _ _ Hp). apply round_binary64_Z. lia.
Qed.

Lemma scaled_count_nonpos (f : Q) (N : nat) :
  f <= 0 -> scaled_count f N <= 0.
Proof.
  intros Hf. unfold scaled_count.
  pose proof (round_binary64_nonpos _ Hf) as Hr.
  pose proof (count_as_Q_nonneg N) as HN.
  assert (Hp : round_binary64 f * inject_Z (Z.of_nat N) <= 0) by nra.
  destruct (Z.of_nat N <? 2 ^ 53)%Z; [apply round_binary64_nonpos|]; exact Hp.
Qed.

End RoundingProps.

(** ** [density2d]: threshold selection *)

Module ThresholdProps.

Import Density2d RoundingProps.

Lemma cumsum_from_length (l : list nat) (acc : nat) :
  length (cumsum_from acc l) = length l.
Proof.
  revert acc. induction l as [|c l IH]; intros acc; simpl; [reflexivity|].
  now rewrite IH.
Qed.

(** Entry [i] of the running sum is the sum of the first [i + 1] counts. *)
Lemma cumsum_from_nth (l : list nat) :
  forall acc i, i < length l ->
    nth i (cumsum_from acc l) 0 = acc + list_sum (firstn (S i) l).
Proof.
  induction l as [|c l IH]; intros acc i Hi; simpl in Hi; [lia|].
  destruct i as [|i].
  - simpl. lia.
  - change (nth (S i) (cumsum_from acc (c :: l)) 0)
      with (nth i (cumsum_from (acc + c) l) 0).
    rewrite IH by lia. simpl. lia.
Qed.

Lemma cumsum_nth (l : list nat) (i : nat) :
  i < length l -> nth i (cumsum l) 0 = list_sum (firstn (S i) l).
Proof. intros H. unfold cumsum. now rewrite cumsum_from_nth. Qed.

Lemma list_sum_firstn_le (l : list nat) :
  forall a b, a <= b -> list_sum (firstn a l) <= list_sum (firstn b l).
Proof.
  induction l as [|c l IH]; intros a b Hab.
  - now rewrite !firstn_nil.
  - destruct a as [|a]; [simpl; lia|]. destruct b as [|b]; [lia|].
    simpl. specialize (IH a b ltac:(lia)). lia.
Qed.

Lemma list_sum_perm (l l' : list nat) :
  Permutation l l' -> list_sum l = list_sum l'.
Proof. induction 1; simpl; lia. Qed.

Lemma map_nth_seq (l : list nat) :
  map (fun b => nth b l 0) (seq 0 (length l)) = l.
Proof.
  apply (nth_ext _ _ 0 0); [now rewrite length_map, length_seq|].
  intros i Hi. rewrite length_map, length_seq in Hi.
  rewrite (nth_indep _ 0 ((fun b => nth b l 0) 0))
    by (rewrite length_map, length_seq; exact Hi).
  now rewrite (map_nth (fun b => nth b l 0)), seq_nth.
Qed.

(** What [np.nonzero(...)[0]] starts with. *)
Lemma nonzero_from_cases (mask : list bool) :
  forall k,
    (nonzero_from k mask = [] /\ Forall (fun m => m = false) mask) \/
    (exists i rest,
        nonzero_from k mask = (k + i) :: rest /\ i < length mask /\
        nth i mask false = true /\
        forall j, j < i -> nth j mask false = false).
Proof.
  induction mask as [|m mask IH]; intros k.
  - left. split; [reflexivity | constructor].
  - destruct m.
    + right. exists 0, (nonzero_from (S k) mask). simpl.
      rewrite Nat.add_0_r. repeat split; lia.
    + destruct (IH (S k)) as [[Hnil Hall] | (i & rest & Heq & Hi & Ht & Hf)].
      * left. simpl. split; [exact Hnil | now constructor].
      * right. exists (S i), rest. simpl. rewrite Heq.
        repeat split; try lia.
        -- f_equal. lia.
        -- exact Ht.
        -- intros [|j] Hj; [reflexivity | apply Hf; lia].
Qed.

(** [first_reaching] returns the first rank whose running sum reaches [n]. *)
Lemma first_reaching_Ok (csvH : list nat) (n : Z) (k : nat) :
  first_reaching csvH n = Ok k ->
  k < length csvH /\ (n <= Z.of_nat (nth k csvH 0%nat))%Z /\
  forall j, j < k -> (Z.of_nat (nth j csvH 0%nat) < n)%Z.
Proof.
  unfold first_reaching, nonzero.
  set (test := fun c => (n <=? Z.of_nat c)%Z).
  destruct (nonzero_from_cases (map test csvH) 0)
    as [[Hnil _] | (i & rest & Heq & Hi & Ht & Hf)].
  - rewrite Hnil. discriminate.
  - rewrite Heq. simpl. intros [= <-]. rewrite length_map in Hi.
    assert (Hnth : forall j, j < length csvH ->
                             nth j (map test csvH) false = test (nth j csvH 0)).
    { intros j Hj. rewrite (nth_indep _ false (test 0))
        by (rewrite length_map; exact Hj).
      apply (map_nth test). }
    repeat split; [exact Hi | |].
    + rewrite Hnth in Ht by exact Hi. now apply Z.leb_le in Ht.
    + intros j Hj. specialize (Hf j Hj). rewrite Hnth in Hf by lia.
      now apply Z.leb_gt in Hf.
Qed.

Lemma first_reaching_exists (csvH : list nat) (n : Z) (j : nat) :
  j < length csvH -> (n <= Z.of_nat (nth j csvH 0%nat))%Z ->
  exists k, first_reaching csvH n = Ok k.
Proof.
  intros Hj Hn. unfold first_reaching, nonzero.
  set (test := fun c => (n <=? Z.of_nat c)%Z).
  destruct (nonzero_from_cases (map test csvH) 0)
    as [[_ Hall] | (i & rest & Heq & _)].
  - exfalso. rewrite Forall_forall in Hall.
    assert (Hin : In (test (nth j csvH 0)) (map test csvH))
      by (apply in_map, nth_In; exact Hj).
    apply Hall in Hin. unfold test in Hin. apply Z.leb_gt in Hin. lia.
  - rewrite Heq. now exists (0 + i).
Qed.

(** When no running sum reaches [n], the subscript [[0][0]] fails. *)
Lemma first_reaching_Err (csvH : list nat) (n : Z) :
  (forall c, In c csvH -> (Z.of_nat c < n)%Z) ->
  first_reaching csvH n = Err (Runtime IndexError).
Proof.
  intros Hall. unfold first_reaching, nonzero.
  set (test := fun c => (n <=? Z.of_nat c)%Z).
  destruct (nonzero_from_cases (map test csvH) 0)
    as [[Hnil _] | (i & rest & _ & Hi & Ht & _)].
  - now rewrite Hnil.
  - exfalso. rewrite length_map in Hi.
    rewrite (nth_indep _ false (test 0)) in Ht by (rewrite length_map; exact Hi).
    rewrite (map_nth test) in Ht. apply Z.leb_le in Ht.
    specialize (Hall (nth i csvH 0) (nth_In _ _ Hi)). lia.
Qed.

(** *** [np.sort] *)

Lemma insert_sorted_perm (i : nat) (l : list nat) :
  Permutation (insert_sorted i l) (i :: l).
Proof.
  induction l as [|j l IH]; simpl; [reflexivity|].
  destruct (Nat.leb i j); [reflexivity|].
  rewrite IH. apply perm_swap.
Qed.

Lemma sort_perm (l : list nat) : Permutation (sort l) l.
Proof.
  induction l as [|i l IH]; simpl; [reflexivity|].
  rewrite insert_sorted_perm. now constructor.
Qed.

Lemma sort_length (l : list nat) : length (sort l) = length l.
Proof. apply Permutation_length, sort_perm. Qed.

Lemma sort_In (l : list nat) (i : nat) : In i (sort l) <-> In i l.
Proof.
  split; apply Permutation_in; [apply sort_perm | symmetry; apply sort_perm].
Qed.

Lemma insert_sorted_sorted (i : nat) (l : list nat) :
  Sorted le l -> Sorted le (insert_sorted i l).
Proof.
  induction l as [|j l IH]; intros Hs; simpl.
  - repeat constructor.
  - destruct (Nat.leb i j) eqn:E.
    + apply Nat.leb_le in E. constructor; [exact Hs | now constructor].
    + apply Nat.leb_gt in E. inversion Hs as [|? ? Hs' Hhd]; subst.
      constructor; [now apply IH|].
      destruct l as [|k l]; simpl.
      * constructor. lia.
      * destruct (Nat.leb i k); constructor; [lia|].
        inversion Hhd; subst. assumption.
Qed.

Lemma sort_sorted (l : list nat) : Sorted le (sort l).
Proof.
  induction l as [|i l IH]; simpl; [constructor|].
  now apply insert_sorted_sorted.
Qed.

(** *** Integer-array indexing *)

Lemma take_rows_ok {A : Type} (data : list A) (idx : list nat) (d : A) :
  (forall i, In i idx -> i < length data) ->
  take_rows data idx = Ok (map (fun i => nth i data d) idx).
Proof.
  induction idx as [|i idx IH]; intros Hall; simpl; [reflexivity|].
  assert (Hi : i < length data) by (apply Hall; now left).
  destruct (nth_error data i) as [r|] eqn:E.
  - rewrite IH by (intros j Hj; apply Hall; now right). simpl.
    now rewrite (nth_error_nth _ _ d E).
  - apply nth_error_None in E. lia.
Qed.

(** *** [n = int(np.ceil(gate_fraction*float(N)))] *)

Lemma count_needed_le (f : Q) (N : nat) :
  (f <= 1)%Q -> (count_needed f N <= Z.of_nat N)%Z.
Proof.
  intros Hf. unfold count_needed.
  rewrite <- (Qceiling_Z (Z.of_nat N)).
  apply Qceiling_resp_le, scaled_count_le, Hf.
Qed.

Lemma count_needed_pos (f : Q) (N : nat) :
  (0 < f)%Q -> 1 <= N -> (1 <= count_needed f N)%Z.
Proof.
  intros Hf HN. unfold count_needed.
  set (x := scaled_count f N).
  assert (Hx : (0 < x)%Q) by (apply scaled_count_pos; assumption).
  pose proof (Qle_ceiling x) as Hc.
  assert (Hlt : (inject_Z 0 < inject_Z (Qceiling x))%Q)
    by (change (inject_Z 0) with 0%Q; lra).
  rewrite <- Zlt_Qlt in Hlt. lia.
Qed.

Lemma count_needed_mono (f1 f2 : Q) (N : nat) :
  (f1 <= f2)%Q -> (count_needed f1 N <= count_needed f2 N)%Z.
Proof.
  intros Hf. unfold count_needed.
  apply Qceiling_resp_le, scaled_count_mono, Hf.
Qed.

(** The rounding of the product shows in [n].  With [gate_fraction = 0.28]
    and 25 events the product is the double [7.000000000000001] and [n] is
    8; with [0.65] and 20 events the product rounds to [13.0] and [n] is
    13, though the double [0.65] is above 13/20; with [0.1] and 30 events
    the product rounds to [3.0] and [n] is 3.  The double nearest to
    [0.65] is [5854679515581645 / 2^53]. *)
Lemma count_needed_follows_binary64 :
  count_needed (28 # 100) 25 = 8%Z /\
  count_needed (65 # 100) 20 = 13%Z /\
  count_needed (1 # 10) 30 = 3%Z /\
  Qred (round_binary64 (65 # 100)) = (5854679515581645 # 9007199254740992)%Q /\
  (13 # 20 < round_binary64 (65 # 100))%Q.
Proof. vm_compute. repeat split. Qed.

End ThresholdProps.

(** ** [density2d]: the whole gate *)

Module GateProps.

Import Density2d BinningProps LoopProps HistogramProps PopulationProps.
Import ThresholdProps.

Section Gate.

Variable gaussian_filter : array2 nat -> Q -> array2 Q.
Variable argsort : list float64 -> list nat.

(** The filter returns an array of the shape of its input, and [argsort]
    returns a permutation of the positions of its argument. *)
Hypothesis gaussian_filter_shape :
  forall H sigma, length (ravel (gaussian_filter H sigma)) = length (ravel H).
Hypothesis argsort_perm :
  forall vD, Permutation (argsort vD) (seq 0 (length vD)).

Lemma density_order_perm (H : array2 nat) (sigma : Q) :
  Permutation (density_order gaussian_filter argsort H sigma)
    (seq 0 (length (ravel H))).
Proof.
  unfold density_order.
  eapply Permutation_trans; [symmetry; apply Permutation_rev|].
  eapply Permutation_trans; [apply argsort_perm|].
  simpl. now rewrite length_map, gaussian_filter_shape.
Qed.

Lemma density_order_length (H : array2 nat) (sigma : Q) :
  length (density_order gaussian_filter argsort H sigma) = length (ravel H).
Proof.
  rewrite (Permutation_length (density_order_perm H sigma)).
  apply length_seq.
Qed.

(** The gate after its argument checks and the histogram have succeeded. *)
Lemma density2d_full_unfold (data data_ch : list (list Q))
  (channels : list nat) (bins : list Q * list Q) (gate_fraction sigma : Q)
  (H : array2 nat) (xe ye : list Q) :
  length channels = 2 ->
  getitem_columns data channels = Ok data_ch ->
  1 < length data_ch ->
  histogram2d (map point_of data_ch) bins = Ok (H, xe, ye) ->
  let pts := map point_of data_ch in
  let Hi := fst (bin_events pts H xe ye) in
  let n := count_needed gate_fraction (snd (bin_events pts H xe ye)) in
  let sidx := density_order gaussian_filter argsort H sigma in
  density2d_full gaussian_filter argsort data channels bins gate_fraction sigma =
  (Nidx <- first_reaching (sorted_cumsum H sidx) n ;;
   gated <- getitem_index data (sort (accepted Hi sidx Nidx)) ;;
   Ok (mkDensity2dGateOutput gated (sort (accepted Hi sidx Nidx)))).
Proof.
  intros Hc Hd Hn Hh. cbv zeta. unfold density2d_full.
  rewrite Hc, Hd. cbn [Nat.eqb assert bind].
  apply Nat.ltb_lt in Hn. rewrite Hn. cbn [assert bind]. rewrite Hh.
  cbn [bind]. now destruct (bin_events (map point_of data_ch) H xe ye).
Qed.

Lemma sorted_cumsum_length (H : array2 nat) (sidx : list nat) :
  length (sorted_cumsum H sidx) = length sidx.
Proof.
  unfold sorted_cumsum, cumsum. now rewrite cumsum_from_length, length_map.
Qed.

Lemma sorted_cumsum_nth (H : array2 nat) (sidx : list nat) (k : nat) :
  k < length sidx ->
  nth k (sorted_cumsum H sidx) 0 =
  list_sum (map (fun b => nth b (ravel H) 0) (firstn (S k) sidx)).
Proof.
  intros Hk. unfold sorted_cumsum.
  rewrite cumsum_nth by (now rewrite length_map). now rewrite firstn_map.
Qed.

(** The number of accepted events is the running sum at the cutoff rank. *)
Lemma accepted_length (pts : list (Q * Q)) (bins : list Q * list Q)
  (H : array2 nat) (xe ye : list Q) (sidx : list nat) (k : nat) :
  histogram2d pts bins = Ok (H, xe, ye) ->
  length (concat (map (fun b => nth b (ravel (fst (bin_events pts H xe ye))) [])
                    (firstn k sidx))) =
  list_sum (map (fun b => nth b (ravel H) 0) (firstn k sidx)).
Proof.
  intros Hh. rewrite length_concat, map_map. f_equal.
  apply map_ext. intros b. rewrite (counts_agree _ _ _ _ _ Hh).
  change 0 with (length (@nil nat)). symmetry. apply (map_nth (@length nat)).
Qed.

Lemma accepted_In (Hi : array2 (list nat)) (sidx : list nat) (k r : nat) :
  In r (concat (map (fun b => nth b (ravel Hi) []) (firstn k sidx))) <->
  exists b, In b (firstn k sidx) /\ In r (nth b (ravel Hi) []).
Proof.
  rewrite in_concat. split.
  - intros (l & Hl & Hr). apply in_map_iff in Hl.
    destruct Hl as (b & <- & Hb). now exists b.
  - intros (b & Hb & Hr). exists (nth b (ravel Hi) []). split; [|exact Hr].
    apply in_map_iff. now exists b.
Qed.

(** Every stored event is a row number of the data. *)
Lemma stored_event_is_row (pts : list (Q * Q)) (bins : list Q * list Q)
  (H : array2 nat) (xe ye : list Q) (b r : nat) :
  histogram2d pts bins = Ok (H, xe, ye) ->
  In r (nth b (ravel (fst (bin_events pts H xe ye))) []) -> r < length pts.
Proof.
  intros Hh Hr. destruct (bin_events_spec _ _ _ _ _ Hh) as (_ & _ & _ & Hnth).
  rewrite Hnth in Hr. apply events_of_bin_In in Hr.
  destruct Hr as (p & _ & Hp & _). rewrite Nat.sub_0_r in Hp.
  apply nth_error_Some. congruence.
Qed.

(** The running sums end at the in-range population. *)
Lemma sorted_cumsum_total (pts : list (Q * Q)) (bins : list Q * list Q)
  (H : array2 nat) (xe ye : list Q) (sigma : Q) :
  histogram2d pts bins = Ok (H, xe, ye) ->
  let sidx := density_order gaussian_filter argsort H sigma in
  list_sum (map (fun b => nth b (ravel H) 0) sidx) =
  snd (bin_events pts H xe ye).
Proof.
  intros Hh. cbv zeta.
  rewrite (list_sum_perm _ _
             (Permutation_map _ (density_order_perm H sigma))).
  rewrite map_nth_seq.
  destruct (bin_events_spec _ _ _ _ _ Hh) as (_ & _ & Ht & _).
  now rewrite (counts_agree _ _ _ _ _ Hh).
Qed.

(** The gate on a valid call: the cutoff rank exists, the mask is the
    sorted list of the events of the bins up to that rank, and the gated
    data are the rows at those positions. *)
Lemma density2d_selects (data data_ch : list (list Q))
  (channels : list nat) (bins : list Q * list Q) (gate_fraction sigma : Q)
  (H : array2 nat) (xe ye : list Q) :
  length channels = 2 ->
  getitem_columns data channels = Ok data_ch ->
  1 < length data_ch ->
  histogram2d (map point_of data_ch) bins = Ok (H, xe, ye) ->
  let pts := map point_of data_ch in
  let Hi := fst (bin_events pts H xe ye) in
  let N := snd (bin_events pts H xe ye) in
  let n := count_needed gate_fraction N in
  let sidx := density_order gaussian_filter argsort H sigma in
  let csvH := sorted_cumsum H sidx in
  1 <= N -> (0 < gate_fraction)%Q -> (gate_fraction <= 1)%Q ->
  exists Nidx,
    first_reaching csvH n = Ok Nidx /\
    Nidx < length sidx /\
    (n <= Z.of_nat (nth Nidx csvH 0%nat))%Z /\
    (forall j, j < Nidx -> (Z.of_nat (nth j csvH 0%nat) < n)%Z) /\
    length (accepted Hi sidx Nidx) = nth Nidx csvH 0 /\
    density2d_full gaussian_filter argsort data channels bins
      gate_fraction sigma =
    Ok (mkDensity2dGateOutput
          (map (fun i => nth i data []) (sort (accepted Hi sidx Nidx)))
          (sort (accepted Hi sidx Nidx))).
Proof.
  intros Hc Hd Hn Hh. cbv zeta. intros HN Hf0 Hf1.
  set (pts := map point_of data_ch).
  set (Hi := fst (bin_events pts H xe ye)).
  set (N := snd (bin_events pts H xe ye)) in *.
  set (sidx := density_order gaussian_filter argsort H sigma).
  set (csvH := sorted_cumsum H sidx).
  pose proof (count_needed_le gate_fraction N Hf1) as Hle.
  pose proof (count_needed_pos gate_fraction N Hf0 HN) as Hpos.
  pose proof (density_order_length H sigma) as Hslen. fold sidx in Hslen.
  pose proof (histogram2d_length _ _ _ _ _ Hh) as Hlen.
  destruct (histogram2d_inv _ _ _ _ _ Hh) as (_ & Hxe & Hye & _).
  destruct (valid_edges_inv _ Hxe) as [Hlx _].
  destruct (valid_edges_inv _ Hye) as [Hly _].
  assert (Hne : 0 < length sidx) by (rewrite Hslen, Hlen; nia).
  assert (Htot : nth (length sidx - 1) csvH 0 = N).
  { unfold csvH. rewrite sorted_cumsum_nth by lia.
    replace (S (length sidx - 1)) with (length sidx) by lia.
    rewrite firstn_all. apply (sorted_cumsum_total _ _ _ _ _ sigma Hh). }
  destruct (first_reaching_exists csvH (count_needed gate_fraction N)
              (length sidx - 1))
    as [Nidx HNidx].
  { unfold csvH. rewrite sorted_cumsum_length. lia. }
  { rewrite Htot. exact Hle. }
  exists Nidx.
  destruct (first_reaching_Ok _ _ _ HNidx) as (Hk & Hreach & Hbefore).
  unfold csvH in Hk. rewrite sorted_cumsum_length in Hk.
  assert (Hacc : length (accepted Hi sidx Nidx) = nth Nidx csvH 0).
  { unfold accepted, Hi, csvH. rewrite (accepted_length _ _ _ _ _ _ _ Hh).
    rewrite sorted_cumsum_nth by exact Hk. now rewrite Nat.add_1_r. }
  repeat split; try assumption.
  rewrite (density2d_full_unfold _ _ _ _ gate_fraction sigma _ _ _ Hc Hd Hn Hh).
  fold pts. fold N. fold sidx. fold csvH. rewrite HNidx. cbn [bind]. fold Hi.
  assert (Hrows : forall i, In i (sort (accepted Hi sidx Nidx)) ->
                            i < length data).
  { intros i Hin. apply (proj1 (sort_In _ _)) in Hin.
    apply (proj1 (accepted_In _ _ _ _)) in Hin.
    destruct Hin as (b & _ & Hr).
    apply (stored_event_is_row _ _ _ _ _ _ _ Hh) in Hr.
    unfold pts in Hr. rewrite length_map in Hr.
    now rewrite <- (getitem_columns_length _ _ _ Hd). }
  unfold getitem_index.
  destruct (sort (accepted Hi sidx Nidx)) as [|i0 mask0] eqn:Emask.
  - exfalso. apply (f_equal (@length nat)) in Emask.
    rewrite sort_length, Hacc in Emask. simpl in Emask. lia.
  - rewrite (take_rows_ok data (i0 :: mask0) [] Hrows). reflexivity.
Qed.

End Gate.

End GateProps.

(** ** The instances of the library routines meet their contracts *)

Module InstanceProps.

Import Density2d.

Lemma gaussian_filter_narrow_shape (H : array2 nat) (sigma : Q) :
  length (ravel (gaussian_filter_narrow H sigma)) = length (ravel H).
Proof. simpl. apply length_map. Qed.



Section Insertion.

Variable vD : list float64.


Lemma insert_index_perm (i : nat) (l : list nat) :
  Permutation (insert_index vD i l) (i :: l).
Proof.
  induction l as [|j l IH]; simpl; [reflexivity|].
  destruct (f64_leb (nth i vD NaN) (nth j vD NaN)); [reflexivity|].
  rewrite IH. apply perm_swap.
Qed.


End Insertion.

Lemma argsort_insertion_perm (vD : list float64) :
  Permutation (argsort_insertion vD) (seq 0 (length vD)).
Proof.
  unfold argsort_insertion.
  induction (seq 0 (length vD)) as [|i l IH]; simpl; [reflexivity|].
  rewrite insert_index_perm. now constructor.
Qed.


End InstanceProps.

(** ** [density2d]: selection, monotonicity and failures *)

Module GateClaims.

Import Density2d BinningProps LoopProps HistogramProps PopulationProps.
Import ThresholdProps GateProps InstanceProps.



Lemma first_reaching_error (csvH : list nat) (n : Z) (e : exn) :
  first_reaching csvH n = Err e -> e = Runtime IndexError.
Proof.
  unfold first_reaching. destruct (nonzero _); [|discriminate].
  now intros [= <-].
Qed.

Lemma take_rows_error {A : Type} (data : list A) (idx : list nat) (e : exn) :
  take_rows data idx = Err e -> e = Runtime IndexError.
Proof.
  induction idx as [|i idx IH]; simpl; [discriminate|].
  destruct (nth_error data i); [|now intros [= <-]].
  destruct (take_rows data idx); simpl; [discriminate|].
  intros [= <-]. now apply IH.
Qed.

Lemma getitem_index_error {A : Type} (data : list A) (idx : list nat) (e : exn) :
  getitem_index data idx = Err e -> e = Runtime IndexError.
Proof.
  unfold getitem_index. destruct idx; [now intros [= <-]|].
  apply take_rows_error.
Qed.

(** A zero divisor leaves no finite quotient. *)
Lemma normalize_zero_mass (sH : array2 Q) :
  (sumQ (ravel sH) == 0)%Q ->
  Forall (fun x => is_finite x = false) (ravel (normalize sH)).
Proof.
  intros Hz. simpl. apply Forall_forall. intros x Hx.
  apply in_map_iff in Hx. destruct Hx as (q & <- & _).
  unfold fdiv. apply Qeq_bool_iff in Hz. rewrite Hz.
  now destruct (Qeq_bool q 0), (Qle_bool 0 q).
Qed.



Section Claims.

Variable gaussian_filter : array2 nat -> Q -> array2 Q.
Variable argsort : list float64 -> list nat.

Hypothesis gaussian_filter_shape :
  forall H sigma, length (ravel (gaussian_filter H sigma)) = length (ravel H).
Hypothesis argsort_perm :
  forall vD, Permutation (argsort vD) (seq 0 (length vD)).
Hypothesis argsort_sorted :
  forall vD,
    StronglySorted (fun i j => f64_leb (nth i vD NaN) (nth j vD NaN) = true)
      (argsort vD).


(** C6: on a valid call with at least one in-range event, raising the
    fraction from [f1] to [f2] within (0, 1] never lowers the number of
    kept events; both calls succeed. *)
Theorem density2d_fraction_monotone :
  forall (data data_ch : list (list Q)) (channels : list nat)
         (bins : list Q * list Q) (f1 f2 sigma : Q)
         (H : array2 nat) (xe ye : list Q),
    length channels = 2 ->
    getitem_columns data channels = Ok data_ch ->
    1 < length data_ch ->
    histogram2d (map point_of data_ch) bins = Ok (H, xe, ye) ->
    1 <= snd (bin_events (map point_of data_ch) H xe ye) ->
    (0 < f1)%Q -> (f1 < f2)%Q -> (f2 <= 1)%Q ->
    exists out1 out2,
      density2d_full gaussian_filter argsort data channels bins f1 sigma
        = Ok out1 /\
      density2d_full gaussian_filter argsort data channels bins f2 sigma
        = Ok out2 /\
      length (gated_data out1) <= length (gated_data out2) /\
      length (mask out1) = length (gated_data out1) /\
      length (mask out2) = length (gated_data out2).
Proof.
  intros data data_ch channels bins f1 f2 sigma H xe ye Hc Hd Hn Hh HN
    Hf1 Hlt Hf2.
  destruct (density2d_selects gaussian_filter argsort gaussian_filter_shape
              argsort_perm _ _ _ _ f1 sigma _ _ _ Hc Hd Hn Hh HN Hf1
              ltac:(lra))
    as (k1 & _ & Hk1 & Hreach1 & Hbefore1 & Hacc1 & Hfull1).
  destruct (density2d_selects gaussian_filter argsort gaussian_filter_shape
              argsort_perm _ _ _ _ f2 sigma _ _ _ Hc Hd Hn Hh HN
              ltac:(lra) Hf2)
    as (k2 & _ & Hk2 & Hreach2 & Hbefore2 & Hacc2 & Hfull2).
  do 2 eexists. split; [exact Hfull1|]. split; [exact Hfull2|].
  cbn [gated_data mask]. rewrite !length_map, !sort_length, Hacc1, Hacc2.
  repeat split.
  pose proof (count_needed_mono f1 f2
                (snd (bin_events (map point_of data_ch) H xe ye))
                ltac:(lra)) as Hmono.
  assert (Hle : k1 <= k2).
  { destruct (Nat.le_gt_cases k1 k2) as [L|L]; [exact L|].
    specialize (Hbefore1 k2 L). lia. }
  rewrite !sorted_cumsum_nth by assumption.
  rewrite <- !firstn_map. apply list_sum_firstn_le. lia.
Qed.

(** C9, amended: on a call that passes the argument checks, when no
    running sum of the density-sorted raw counts reaches [n], the
    subscript [np.nonzero(csvH >= n)[0][0]] fails and the gate ends in the
    [IndexError] raised by numpy; the gate has no check of its own for
    this condition. *)
Theorem density2d_unreached_target_index_error :
  forall (data data_ch : list (list Q)) (channels : list nat)
         (bins : list Q * list Q) (gate_fraction sigma : Q)
         (H : array2 nat) (xe ye : list Q),
    length channels = 2 ->
    getitem_columns data channels = Ok data_ch ->
    1 < length data_ch ->
    histogram2d (map point_of data_ch) bins = Ok (H, xe, ye) ->
    let N := snd (bin_events (map point_of data_ch) H xe ye) in
    let n := count_needed gate_fraction N in
    let sidx := density_order gaussian_filter argsort H sigma in
    (forall c, In c (sorted_cumsum H sidx) -> (Z.of_nat c < n)%Z) ->
    density2d_full gaussian_filter argsort data channels bins
      gate_fraction sigma = Err (Runtime IndexError) /\
    from_check (Runtime IndexError) = false.
Proof.
  intros data data_ch channels bins f sigma H xe ye Hc Hd Hn Hh.
  cbv zeta. intros Hnever. split; [|reflexivity].
  rewrite (density2d_full_unfold gaussian_filter argsort
             _ _ _ _ f sigma _ _ _ Hc Hd Hn Hh).
  now rewrite (first_reaching_Err _ _ Hnever).
Qed.

(** C2, amended: on a call that passes the argument checks, when the
    smoothed histogram has zero total mass the normalising division is
    carried out without a check and leaves no finite density; the gate
    raises no error of its own for this condition, any failure of the call
    is an [IndexError] raised by numpy, and when no event is in range the
    call does end in that [IndexError], raised where the data are indexed
    with the empty index array. *)
Theorem density2d_zero_mass_divides_unchecked :
  forall (data data_ch : list (list Q)) (channels : list nat)
         (bins : list Q * list Q) (gate_fraction sigma : Q)
         (H : array2 nat) (xe ye : list Q),
    length channels = 2 ->
    getitem_columns data channels = Ok data_ch ->
    1 < length data_ch ->
    histogram2d (map point_of data_ch) bins = Ok (H, xe, ye) ->
    (sumQ (ravel (gaussian_filter H sigma)) == 0)%Q ->
    let r := density2d_full gaussian_filter argsort data channels bins
               gate_fraction sigma in
    Forall (fun x => is_finite x = false)
      (ravel (normalize (gaussian_filter H sigma))) /\
    (forall e, r = Err e -> e = Runtime IndexError /\ from_check e = false) /\
    (snd (bin_events (map point_of data_ch) H xe ye) = 0 ->
     r = Err (Runtime IndexError)).
Proof.
  intros data data_ch channels bins f sigma H xe ye Hc Hd Hn Hh Hz.
  cbv zeta. split; [now apply normalize_zero_mass|].
  rewrite (density2d_full_unfold gaussian_filter argsort
             _ _ _ _ f sigma _ _ _ Hc Hd Hn Hh).
  set (pts := map point_of data_ch).
  set (sidx := density_order gaussian_filter argsort H sigma).
  split.
  - intros e He.
    assert (e = Runtime IndexError); [|now subst e].
    destruct (first_reaching _ _) as [Nidx|e1] eqn:E1; cbn [bind] in He.
    + destruct (getitem_index _ _) as [g|e2] eqn:E2; cbn [bind] in He;
        [discriminate|].
      injection He as <-. now apply getitem_index_error in E2.
    + injection He as <-. now apply first_reaching_error in E1.
  - intros HN0.
    destruct (first_reaching _ _) as [Nidx|e1] eqn:E1; cbn [bind].
    + assert (Hempty : accepted (fst (bin_events pts H xe ye)) sidx Nidx = []).
      { apply length_zero_iff_nil. unfold accepted.
        rewrite (accepted_length _ _ _ _ _ _ _ Hh).
        pose proof (sorted_cumsum_total gaussian_filter argsort
                      gaussian_filter_shape argsort_perm _ _ _ _ _ sigma Hh)
          as Htot.
        cbv zeta in Htot. fold pts sidx in Htot. rewrite HN0 in Htot.
        pose proof (list_sum_firstn_le
                      (map (fun b => nth b (ravel H) 0) sidx)
                      (Nidx + 1) (length sidx) ) as Hle.
        rewrite !firstn_map in Hle.
        rewrite (firstn_all sidx) in Hle.
        destruct (Nat.le_gt_cases (Nidx + 1) (length sidx)) as [L|L].
        - specialize (Hle L). lia.
        - rewrite firstn_all2 by lia. lia. }
      rewrite Hempty. reflexivity.
    + f_equal. now apply first_reaching_error in E1.
Qed.

End Claims.

End GateClaims.

(** ** [density2d] on the sample calls *)

Module SampleCalls.

Import Density2d InstanceProps GateClaims.

(** The gate with the narrow filter and the insertion [argsort]. *)
Local Abbreviation gate :=
  (density2d_full gaussian_filter_narrow argsort_insertion).
Local Abbreviation order :=
  (density_order gaussian_filter_narrow argsort_insertion).

(** C1 fails for [density2d]: on three events with [gate_fraction = 0.65]
    the field [mask] of the output is the sorted index array [[0, 1]], of
    length two, and not a boolean sequence of length three; [gated_data]
    holds rows 0 and 1 in their original order. *)
Theorem density2d_mask_is_index_array :
  gate sample_events [0; 1] (sample_edges, sample_edges) (65 # 100) (1 # 20) =
    Ok (mkDensity2dGateOutput [[1 # 2; 1 # 2]; [1 # 2; 1 # 2]]%Q [0; 1]) /\
  length [0; 1] <> length sample_events.
Proof. split; [reflexivity | discriminate]. Qed.


Lemma density2d_fraction_monotone_witness :
  exists out1 out2,
    gate sample_events [0; 1] (sample_edges, sample_edges) (1 # 2) (1 # 20)
      = Ok out1 /\
    gate sample_events [0; 1] (sample_edges, sample_edges) 1 (1 # 20)
      = Ok out2 /\
    length (gated_data out1) <= length (gated_data out2) /\
    length (mask out1) = length (gated_data out1) /\
    length (mask out2) = length (gated_data out2).
Proof.
  apply (density2d_fraction_monotone
           gaussian_filter_narrow argsort_insertion
           gaussian_filter_narrow_shape argsort_insertion_perm
           sample_events sample_events [0; 1] (sample_edges, sample_edges)
           (1 # 2) 1 (1 # 20) (mkArray2 2 2 [2; 0; 0; 1])
           sample_edges sample_edges).
  - reflexivity.
  - reflexivity.
  - simpl. lia.
  - reflexivity.
  - vm_compute. lia.
  - reflexivity.
  - reflexivity.
  - discriminate.
Defined.

(** C9, as stated, fails: with [gate_fraction = 2] no running sum reaches
    [n = 6], and the gate ends in an error that no check of the gate
    raised. *)
Lemma density2d_unreached_target_not_checked :
  let H := mkArray2 2 2 [2; 0; 0; 1] in
  let r := gate sample_events [0; 1] (sample_edges, sample_edges) 2 (1 # 20) in
  (forall c, In c (sorted_cumsum H (order H (1 # 20))) ->
             (Z.of_nat c < count_needed 2 3)%Z) /\
  ~ (exists e, r = Err e /\ from_check e = true).
Proof.
  cbv zeta. split.
  - intros c Hc. vm_compute in Hc.
    repeat (destruct Hc as [<- | Hc]; [reflexivity|]). contradiction.
  - intros (e & He & Hcheck). vm_compute in He. injection He as <-.
    discriminate.
Qed.

Lemma density2d_unreached_target_index_error_witness :
  gate sample_events [0; 1] (sample_edges, sample_edges) 2 (1 # 20)
    = Err (Runtime IndexError) /\
  from_check (Runtime IndexError) = false.
Proof.
  apply (density2d_unreached_target_index_error
           gaussian_filter_narrow argsort_insertion
           sample_events sample_events [0; 1] (sample_edges, sample_edges)
           2 (1 # 20) (mkArray2 2 2 [2; 0; 0; 1]) sample_edges sample_edges).
  - reflexivity.
  - reflexivity.
  - simpl. lia.
  - reflexivity.
  - intros c Hc. vm_compute in Hc.
    repeat (destruct Hc as [<- | Hc]; [reflexivity|]). contradiction.
Defined.

(** C2, as stated, fails: when both events lie outside the bins the
    smoothed histogram has zero mass, the division yields [nan] in every
    bin, the threshold search goes on and returns rank 0, and the error
    that ends the call was raised by no check of the gate. *)
Lemma density2d_zero_mass_not_reported :
  let H := mkArray2 2 2 [0; 0; 0; 0] in
  let sH := gaussian_filter_narrow H (1 # 20) in
  let r := gate sample_outside [0; 1] (sample_edges, sample_edges)
             (65 # 100) (1 # 20) in
  histogram2d (map point_of sample_outside) (sample_edges, sample_edges)
    = Ok (H, sample_edges, sample_edges) /\
  (sumQ (ravel sH) == 0)%Q /\
  ravel (normalize sH) = [NaN; NaN; NaN; NaN] /\
  first_reaching (sorted_cumsum H (order H (1 # 20)))
    (count_needed (65 # 100) 0) = Ok 0 /\
  ~ (exists e, r = Err e /\ from_check e = true).
Proof.
  cbv zeta. repeat split.
  intros (e & He & Hcheck). vm_compute in He. injection He as <-.
  discriminate.
Qed.

Lemma density2d_zero_mass_divides_unchecked_witness :
  let H := mkArray2 2 2 [0; 0; 0; 0] in
  let r := gate sample_outside [0; 1] (sample_edges, sample_edges)
             (65 # 100) (1 # 20) in
  Forall (fun x => is_finite x = false)
    (ravel (normalize (gaussian_filter_narrow H (1 # 20)))) /\
  (forall e, r = Err e -> e = Runtime IndexError /\ from_check e = false) /\
  (snd (bin_events (map point_of sample_outside) H sample_edges sample_edges)
   = 0 -> r = Err (Runtime IndexError)).
Proof.
  cbv zeta.
  apply (density2d_zero_mass_divides_unchecked
           gaussian_filter_narrow argsort_insertion
           gaussian_filter_narrow_shape argsort_insertion_perm
           sample_outside sample_outside [0; 1] (sample_edges, sample_edges)
           (65 # 100) (1 # 20) (mkArray2 2 2 [0; 0; 0; 0])
           sample_edges sample_edges).
  - reflexivity.
  - reflexivity.
  - simpl. lia.
  - reflexivity.
  - reflexivity.
Defined.

End SampleCalls.

(** * Further properties of the gates *)

(** ** Boolean masks select rows in order *)

Lemma nonzero_from_In (mask : list bool) :
  forall k i,
    In i (nonzero_from k mask) <->
    k <= i /\ nth_error mask (i - k) = Some true.
Proof.
  induction mask as [|m mask IH]; intros k i; simpl.
  - split; [easy|]. intros [_ H]. destruct (i - k); discriminate.
  - assert (Hrest : (S k <= i /\ nth_error mask (i - S k) = Some true) <->
                    (k <= i /\ i <> k /\
                     nth_error (m :: mask) (i - k) = Some true)).
    { split.
      - intros [H1 H2]. repeat split; try lia.
        replace (i - k) with (S (i - S k)) by lia. exact H2.
      - intros (H1 & H2 & H3). split; [lia|].
        replace (i - k) with (S (i - S k)) in H3 by lia. exact H3. }
    destruct m; simpl; rewrite IH, Hrest.
    + split.
      * intros [<- | (H1 & _ & H2)]; [|tauto].
        rewrite Nat.sub_diag. auto.
      * intros [H1 H2]. destruct (Nat.eq_dec i k) as [->|Hne]; [now left|].
        right. tauto.
    + split; [tauto|]. intros [H1 H2].
      destruct (Nat.eq_dec i k) as [->|Hne]; [|tauto].
      rewrite Nat.sub_diag in H2. discriminate.
Qed.

Lemma nonzero_In (mask : list bool) (i : nat) :
  In i (nonzero mask) <-> nth_error mask i = Some true.
Proof.
  unfold nonzero. rewrite nonzero_from_In, Nat.sub_0_r.
  split; [tauto | intros H; split; [lia | exact H]].
Qed.

(** ** [start_end] *)

Module StartEndExtras.

Import StartEnd.

Lemma firstn_repeat {A : Type} (x : A) (n m : nat) :
  firstn n (repeat x m) = repeat x (Nat.min n m).
Proof.
  revert n. induction m as [|m IH]; intros [|n]; simpl; auto.
  now rewrite IH.
Qed.

Lemma skipn_repeat {A : Type} (x : A) (n m : nat) :
  skipn n (repeat x m) = repeat x (m - n).
Proof.
  revert n. induction m as [|m IH]; intros [|n]; simpl; auto.
Qed.

Lemma getitem_bool_window {A : Type} (data : list A) (a m b : nat) :
  length data = a + m + b ->
  getitem_bool data (repeat false a ++ repeat true m ++ repeat false b) =
  firstn m (skipn a data).
Proof.
  revert data. induction a as [|a IHa]; intros data Hlen.
  - simpl. revert data Hlen. induction m as [|m IHm]; intros data Hlen.
    + simpl. apply getitem_bool_all_false.
    + destruct data as [|r data]; simpl in *; [lia|].
      f_equal. apply IHm. lia.
  - destruct data as [|r data]; simpl in *; [lia|]. apply IHa. lia.
Qed.

(** The mask of a call with [num_start >= 0] and [num_end > 0] that
    discards no more than there is. *)
Lemma start_end_window {A : Type} (data : list A) (a b : nat) :
  0 < b -> a + b <= length data ->
  start_end_full data (Z.of_nat a) (Z.of_nat b) =
  Ok (mkStartEndGateOutput
        (firstn (length data - a - b) (skipn a data))
        (repeat false a ++ repeat true (length data - a - b)
           ++ repeat false b)).
Proof.
  intros Hb Hab. unfold start_end_full.
  replace (Z.of_nat (length data) <? Z.of_nat a + Z.of_nat b)%Z with false
    by (symmetry; apply Z.ltb_ge; lia).
  cbv zeta. set (N := length data) in *.
  assert (Hup : set_upto (repeat true N) (Z.of_nat a) false =
                repeat false a ++ repeat true (N - a)).
  { unfold set_upto, slice_bound. rewrite repeat_length.
    replace (Z.of_nat a <? 0)%Z with false by (symmetry; apply Z.ltb_ge; lia).
    rewrite Nat2Z.id, Nat.min_l by lia. now rewrite skipn_repeat. }
  rewrite Hup.
  assert (Hfrom : set_from (repeat false a ++ repeat true (N - a))
                    (- Z.of_nat b) false =
                  repeat false a ++ repeat true (N - a - b)
                    ++ repeat false b).
  { unfold set_from, slice_bound.
    rewrite length_app, !repeat_length.
    replace (- Z.of_nat b <? 0)%Z with true by (symmetry; apply Z.ltb_lt; lia).
    replace (Z.to_nat (Z.max (- Z.of_nat b + Z.of_nat (a + (N - a))) 0))
      with (N - b) by lia.
    rewrite firstn_app, repeat_length, !firstn_repeat.
    rewrite Nat.min_r by lia.
    replace (Nat.min (N - b - a) (N - a)) with (N - a - b) by lia.
    replace (a + (N - a) - (N - b)) with b by lia.
    now rewrite <- app_assoc. }
  rewrite Hfrom. f_equal. f_equal.
  apply getitem_bool_window. lia.
Qed.

(** A call with [num_start >= 0] and [num_end > 0] that discards no more
    events than there are keeps exactly the slice
    [data[num_start : N - num_end]], that is [N - num_start - num_end]
    events, and its mask is [True] exactly on that window. *)
Theorem start_end_keeps_middle_slice :
  forall (A : Type) (data : list A) (a b : nat),
    0 < b -> a + b <= length data ->
    exists out,
      start_end_full data (Z.of_nat a) (Z.of_nat b) = Ok out /\
      gated_data out = firstn (length data - a - b) (skipn a data) /\
      length (gated_data out) = length data - a - b /\
      (forall i, i < length data ->
                 nth i (mask out) false = true <-> a <= i < length data - b).
Proof.
  intros A data a b Hb Hab. eexists.
  split; [now apply start_end_window|]. cbn [gated_data mask].
  split; [reflexivity|]. split.
  - rewrite length_firstn, length_skipn. lia.
  - intros i Hi. destruct (Nat.lt_ge_cases i a) as [L|L].
    + rewrite app_nth1 by (now rewrite repeat_length).
      rewrite nth_repeat. split; [discriminate | lia].
    + rewrite app_nth2 by (rewrite repeat_length; lia). rewrite repeat_length.
      destruct (Nat.lt_ge_cases (i - a) (length data - a - b)) as [M|M].
      * rewrite app_nth1 by (now rewrite repeat_length).
        rewrite (nth_indep _ false true) by (now rewrite repeat_length).
        rewrite nth_repeat. split; [lia | reflexivity].
      * rewrite app_nth2 by (rewrite repeat_length; lia).
        rewrite nth_repeat. split; [discriminate | lia].
Qed.

Lemma start_end_keeps_middle_slice_witness :
  exists out,
    start_end_full [10; 20; 30; 40; 50] (Z.of_nat 2) (Z.of_nat 1) = Ok out /\
    gated_data out = firstn (5 - 2 - 1) (skipn 2 [10; 20; 30; 40; 50]) /\
    length (gated_data out) = 5 - 2 - 1 /\
    (forall i, i < 5 -> nth i (mask out) false = true <-> 2 <= i < 5 - 1).
Proof.
  apply (start_end_keeps_middle_slice nat [10; 20; 30; 40; 50] 2 1).
  - lia.
  - simpl. lia.
Defined.

(** Trimming twice is trimming once by the summed counts: gating the
    result of [start_end(data, a, b)] with [start_end(., c, d)] returns the
    events of [start_end(data, a + c, b + d)]. *)
Theorem start_end_composes :
  forall (A : Type) (data : list A) (a b c d : nat),
    0 < b -> 0 < d -> a + b + c + d <= length data ->
    exists out1 out2 out,
      start_end_full data (Z.of_nat a) (Z.of_nat b) = Ok out1 /\
      start_end_full (gated_data out1) (Z.of_nat c) (Z.of_nat d) = Ok out2 /\
      start_end_full data (Z.of_nat (a + c)) (Z.of_nat (b + d)) = Ok out /\
      gated_data out2 = gated_data out.
Proof.
  intros A data a b c d Hb Hd Hlen.
  set (mid := firstn (length data - a - b) (skipn a data)).
  assert (Hmid : length mid = length data - a - b).
  { unfold mid. rewrite length_firstn, length_skipn. lia. }
  do 3 eexists.
  split; [apply start_end_window; lia|]. cbn [gated_data]. fold mid.
  split; [apply start_end_window; lia|].
  split; [apply start_end_window; lia|]. cbn [gated_data].
  rewrite Hmid. unfold mid.
  rewrite skipn_firstn_comm, firstn_firstn, skipn_skipn.
  rewrite (Nat.add_comm c a). f_equal. lia.
Qed.

Lemma start_end_composes_witness :
  exists out1 out2 out,
    start_end_full [1; 2; 3; 4; 5; 6; 7] (Z.of_nat 1) (Z.of_nat 2) = Ok out1 /\
    start_end_full (gated_data out1) (Z.of_nat 1) (Z.of_nat 1) = Ok out2 /\
    start_end_full [1; 2; 3; 4; 5; 6; 7] (Z.of_nat (1 + 1)) (Z.of_nat (2 + 1))
      = Ok out /\
    gated_data out2 = gated_data out.
Proof.
  apply (start_end_composes nat [1; 2; 3; 4; 5; 6; 7] 1 2 1 1).
  - lia.
  - lia.
  - simpl. lia.
Defined.

End StartEndExtras.

(** The mask of [start_end] is a boolean array over the events, and the
    gated data are the events at the [True] positions of the mask, each
    once and in their original order. *)
Theorem start_end_rows_in_order :
  forall (A : Type) (data : list A) (num_start num_end : Z)
         (out : StartEnd.StartEndGateOutput A),
    StartEnd.start_end_full data num_start num_end = Ok out ->
    length (StartEnd.mask out) = length data /\
    (forall d, StartEnd.gated_data out =
               map (fun i => nth i data d) (nonzero (StartEnd.mask out))) /\
    StronglySorted lt (nonzero (StartEnd.mask out)) /\
    (forall i, In i (nonzero (StartEnd.mask out)) <->
               nth_error (StartEnd.mask out) i = Some true).
Proof.
  intros A data num_start num_end out Hout.
  destruct (start_end_mask_contract data num_start num_end out Hout)
    as [Hlen Hg].
  split; [exact Hlen|]. rewrite Hg. split; [|split].
  - intros d. now apply getitem_bool_nonzero.
  - apply nonzero_from_increasing.
  - apply nonzero_In.
Qed.

Lemma start_end_rows_in_order_witness :
  let out := StartEnd.mkStartEndGateOutput [30; 40]
               [false; false; true; true; false] in
  StartEnd.start_end_full [10; 20; 30; 40; 50] 2 1 = Ok out /\
  length (StartEnd.mask out) = 5 /\
  StronglySorted lt (nonzero (StartEnd.mask out)).
Proof.
  cbv zeta. split; [reflexivity|].
  destruct (start_end_rows_in_order nat [10; 20; 30; 40; 50] 2%Z 1%Z
              (StartEnd.mkStartEndGateOutput [30; 40]
                 [false; false; true; true; false]) eq_refl)
    as (Hlen & _ & Hs & _).
  split; [exact Hlen | exact Hs].
Defined.

(** ** [high_low] *)

Module HighLowExtras.

Import HighLow.

Lemma high_low_Qlt_bool_iff (x y : Q) : Qlt_bool x y = true <-> (x < y)%Q.
Proof.
  unfold Qlt_bool. rewrite negb_true_iff. split.
  - intros H. apply Qnot_le_lt. intros Hle.
    apply Qle_bool_iff in Hle. congruence.
  - intros H. destruct (Qle_bool y x) eqn:E; [|reflexivity].
    apply Qle_bool_iff in E. lra.
Qed.

Lemma getitem_bool_all_true {A : Type} (data : list A) :
  getitem_bool data (repeat true (length data)) = data.
Proof. induction data as [|r data IH]; simpl; [reflexivity | now rewrite IH]. Qed.

Lemma select_length (data data_ch : list (list Q)) (channels : channel_sel) :
  select data channels = Ok data_ch -> length data_ch = length data.
Proof.
  destruct channels; simpl; intros H.
  - now injection H as <-.
  - now apply getitem_columns_length in H.
  - now apply getitem_columns_length in H.
Qed.

(** With scalar bounds the mask is computed row by row and never fails. *)
Lemma rows_inside_scalar (data_ch : list (list Q)) (h l : Q) :
  rows_inside data_ch (Scalar h) (Scalar l) =
  Ok (map (fun row => row_inside row (repeat (Some h) (length row))
                        (repeat (Some l) (length row))) data_ch).
Proof.
  induction data_ch as [|row rest IH]; simpl; [reflexivity|].
  now rewrite IH.
Qed.

Lemma rows_inside_unbounded (data_ch : list (list Q)) :
  rows_inside data_ch Unbounded Unbounded =
  Ok (repeat true (length data_ch)).
Proof.
  induction data_ch as [|row rest IH]; simpl; [reflexivity|].
  rewrite IH. simpl. f_equal. f_equal.
  induction row as [|v row IHr]; simpl; [reflexivity | exact IHr].
Qed.

Lemma row_inside_scalar (row : list Q) (h l : Q) :
  row_inside row (repeat (Some h) (length row)) (repeat (Some l) (length row))
    = true <->
  forall v, In v row -> (l < v < h)%Q.
Proof.
  induction row as [|v row IH]; simpl.
  - split; [intros _ w [] | reflexivity].
  - rewrite !andb_true_iff, !high_low_Qlt_bool_iff, IH. split.
    + intros [[Hh Hl] Hrest] w [<- | Hw]; [tauto | now apply Hrest].
    + intros Hall. split; [|intros w Hw; apply Hall; now right].
      specialize (Hall v (or_introl eq_refl)). tauto.
Qed.

(** With scalar [high] and [low], an event is kept exactly when every
    gated value lies strictly between [low] and [high]; a value equal to
    a bound discards the event. *)
Theorem high_low_bounds_are_strict :
  forall (data data_ch : list (list Q)) (channels : channel_sel) (h l : Q),
    select data channels = Ok data_ch ->
    exists out,
      high_low_full data channels (Scalar h) (Scalar l) = Ok out /\
      length (mask out) = length data /\
      (forall i row,
          nth_error data_ch i = Some row ->
          (nth_error (mask out) i = Some true <->
           forall v, In v row -> (l < v < h)%Q)) /\
      (forall i row,
          nth_error data_ch i = Some row ->
          (In h row \/ In l row) -> nth_error (mask out) i = Some false).
Proof.
  intros data data_ch channels h l Hs. eexists.
  split; [unfold high_low_full; rewrite Hs; cbn [bind];
          rewrite rows_inside_scalar; reflexivity|].
  cbn [mask]. split; [rewrite length_map; now apply select_length in Hs|].
  split.
  - intros i row Hrow. rewrite (map_nth_error _ _ _ Hrow).
    rewrite <- row_inside_scalar. split; [now intros [= ->] | now intros ->].
  - intros i row Hrow Hin. rewrite (map_nth_error _ _ _ Hrow). f_equal.
    apply not_true_is_false. intros Ht.
    rewrite row_inside_scalar in Ht.
    destruct Hin as [Hin | Hin]; specialize (Ht _ Hin); lra.
Qed.

Lemma high_low_bounds_are_strict_witness :
  exists out,
    high_low_full [[0]; [5]; [10]; [9]]%Q AllChannels (Scalar 9) (Scalar 1)
      = Ok out /\
    length (mask out) = 4 /\
    mask out = [false; true; false; false].
Proof.
  destruct (high_low_bounds_are_strict
              [[0]; [5]; [10]; [9]]%Q [[0]; [5]; [10]; [9]]%Q
              AllChannels 9 1 eq_refl)
    as (out & Hout & Hlen & _).
  exists out. split; [exact Hout|]. split; [exact Hlen|].
  vm_compute in Hout. now injection Hout as <-.
Defined.

(** Without [high] and [low], on a plain array of finite values, the gate
    keeps every event. *)
Theorem high_low_defaults_keep_everything :
  forall (data data_ch : list (list Q)) (channels : channel_sel),
    select data channels = Ok data_ch ->
    high_low_full data channels Unbounded Unbounded =
    Ok (mkHighLowGateOutput data (repeat true (length data))).
Proof.
  intros data data_ch channels Hs. unfold high_low_full.
  rewrite Hs. cbn [bind]. rewrite rows_inside_unbounded. cbn [bind].
  rewrite (select_length _ _ _ Hs). now rewrite getitem_bool_all_true.
Qed.

Lemma high_low_defaults_keep_everything_witness :
  high_low_full [[0; 3]; [5; 4]]%Q (OneChannel 1) Unbounded Unbounded =
  Ok (mkHighLowGateOutput [[0; 3]; [5; 4]]%Q (repeat true 2)).
Proof.
  apply (high_low_defaults_keep_everything
           [[0; 3]; [5; 4]]%Q [[3]; [4]]%Q (OneChannel 1)).
  reflexivity.
Defined.

(** Narrowing the interval never adds an event: with [l <= l'] and
    [h' <= h], every event kept between [l'] and [h'] is kept between [l]
    and [h]. *)
Theorem high_low_narrowing_keeps_fewer :
  forall (data data_ch : list (list Q)) (channels : channel_sel)
         (h l h' l' : Q),
    select data channels = Ok data_ch ->
    (l <= l')%Q -> (h' <= h)%Q ->
    exists wide narrow,
      high_low_full data channels (Scalar h) (Scalar l) = Ok wide /\
      high_low_full data channels (Scalar h') (Scalar l') = Ok narrow /\
      (forall i, nth_error (mask narrow) i = Some true ->
                 nth_error (mask wide) i = Some true) /\
      length (gated_data narrow) <= length (gated_data wide).
Proof.
  intros data data_ch channels h l h' l' Hs Hl Hh.
  assert (Himp : forall row,
             row_inside row (repeat (Some h') (length row))
               (repeat (Some l') (length row)) = true ->
             row_inside row (repeat (Some h) (length row))
               (repeat (Some l) (length row)) = true).
  { intros row. rewrite !row_inside_scalar. intros H v Hv.
    specialize (H v Hv). lra. }
  do 2 eexists.
  split; [unfold high_low_full; rewrite Hs; cbn [bind];
          rewrite rows_inside_scalar; reflexivity|].
  split; [unfold high_low_full; rewrite Hs; cbn [bind];
          rewrite rows_inside_scalar; reflexivity|].
  cbn [mask gated_data].
  set (fn := fun row => row_inside row (repeat (Some h') (length row))
                          (repeat (Some l') (length row))) in *.
  set (fw := fun row => row_inside row (repeat (Some h) (length row))
                          (repeat (Some l) (length row))) in *.
  split.
  - intros i Hi. destruct (nth_error data_ch i) as [row|] eqn:Erow.
    + rewrite (map_nth_error fn _ _ Erow) in Hi.
      rewrite (map_nth_error fw _ _ Erow). injection Hi as Hi.
      f_equal. now apply Himp.
    + apply nth_error_None in Erow.
      assert (nth_error (map fn data_ch) i = None)
        by (apply nth_error_None; now rewrite length_map).
      congruence.
  - apply select_length in Hs. clear Hl Hh. revert data Hs.
    induction data_ch as [|row rest IH]; intros [|r data] Hlen; simpl in *;
      try lia.
    specialize (IH data ltac:(lia)).
    destruct (fn row) eqn:E.
    + assert (Ew : fw row = true) by (apply Himp; exact E).
      rewrite Ew. simpl. lia.
    + destruct (fw row); simpl; lia.
Qed.

Lemma high_low_narrowing_keeps_fewer_witness :
  exists wide narrow,
    high_low_full [[0]; [5]; [8]]%Q AllChannels (Scalar 9) (Scalar 1)
      = Ok wide /\
    high_low_full [[0]; [5]; [8]]%Q AllChannels (Scalar 7) (Scalar 2)
      = Ok narrow /\
    (forall i, nth_error (mask narrow) i = Some true ->
               nth_error (mask wide) i = Some true) /\
    length (gated_data narrow) <= length (gated_data wide).
Proof.
  apply (high_low_narrowing_keeps_fewer
           [[0]; [5]; [8]]%Q [[0]; [5]; [8]]%Q AllChannels 9 1 7 2).
  - reflexivity.
  - discriminate.
  - discriminate.
Defined.

(** With scalar or default bounds the mask of [high_low] is a boolean
    array over the events, and the gated data are the events at its [True]
    positions, in their original order. *)
Theorem high_low_rows_in_order :
  forall (data : list (list Q)) (channels : channel_sel) (high low : bound)
         (out : HighLowGateOutput),
    high_low_full data channels high low = Ok out ->
    length (mask out) = length data /\
    (forall d, gated_data out =
               map (fun i => nth i data d) (nonzero (mask out))) /\
    StronglySorted lt (nonzero (mask out)).
Proof.
  intros data channels high low out Hout.
  destruct (high_low_mask_contract data channels high low out Hout)
    as [Hlen Hg].
  split; [exact Hlen|]. rewrite Hg. split.
  - intros d. now apply getitem_bool_nonzero.
  - apply nonzero_from_increasing.
Qed.

Lemma high_low_rows_in_order_witness :
  let out := mkHighLowGateOutput [[5]; [8]]%Q [false; true; true] in
  high_low_full [[0]; [5]; [8]]%Q AllChannels (Scalar 9) (Scalar 1) = Ok out /\
  length (mask out) = 3 /\
  StronglySorted lt (nonzero (mask out)).
Proof.
  cbv zeta. split; [reflexivity|].
  destruct (high_low_rows_in_order [[0]; [5]; [8]]%Q AllChannels
              (Scalar 9) (Scalar 1)
              (mkHighLowGateOutput [[5]; [8]]%Q [false; true; true]) eq_refl)
    as (Hlen & _ & Hs).
  split; [exact Hlen | exact Hs].
Defined.

End HighLowExtras.

(** ** [ellipse] *)

Module EllipseExtras.

Import Reals Lra.
Import Ellipse EllipseProps.
Local Open Scope R_scope.



Lemma pow2_div_le (x a a' : R) :
  0 < a -> a <= a' -> (x / a') ^ 2 <= (x / a) ^ 2.
Proof.
  intros Ha Hle. unfold Rdiv.
  assert (Ha' : 0 < a') by lra.
  assert (Hi : / a' <= / a) by (apply Rinv_le_contravar; assumption).
  assert (Hp : 0 < / a') by (now apply Rinv_0_lt_compat).
  assert (Hs : / a' * / a' <= / a * / a) by nra.
  replace ((x * / a') ^ 2) with (x * x * (/ a' * / a')) by ring.
  replace ((x * / a) ^ 2) with (x * x * (/ a * / a)) by ring.
  apply Rmult_le_compat_l; [nra | exact Hs].
Qed.

(** Enlarging the semi-axes never loses an event: what an ellipse with
    axes [a], [b] keeps, the ellipse with the same centre and angle and
    axes [a' >= a], [b' >= b] keeps as well. *)
Theorem ellipse_larger_axes_keep_more :
  forall (center : R * R) (a b a' b' theta : R) (log : bool) (p : R * R),
    0 < a -> 0 < b -> a <= a' -> b <= b' ->
    accept center a b theta log p = true ->
    accept center a' b' theta log p = true.
Proof.
  intros center a b a' b' theta log p Ha Hb Ha' Hb'. unfold accept.
  rewrite !Req_bool_false by lra. rewrite !orb_false_r.
  destruct (log && (Rle_bool (fst p) 0 || Rle_bool (snd p) 0));
    [discriminate|].
  cbv zeta.
  set (r := dot _ _). unfold Rle_bool.
  destruct (Rle_dec ((fst r / a) ^ 2 + (snd r / b) ^ 2) 1) as [H|H];
    [intros _ | discriminate].
  pose proof (pow2_div_le (fst r) a a' Ha Ha').
  pose proof (pow2_div_le (snd r) b b' Hb Hb').
  destruct (Rle_dec ((fst r / a') ^ 2 + (snd r / b') ^ 2) 1); [reflexivity|].
  lra.
Qed.

Lemma ellipse_larger_axes_keep_more_witness :
  accept (0, 0) 1 1 0 false (1, 0) = true /\
  accept (0, 0) 2 3 0 false (1, 0) = true.
Proof.
  assert (H : accept (0, 0) 1 1 0 false (1, 0) = true).
  { rewrite accept_axis_aligned by lra. apply Rle_bool_true.
    replace (((1 - 0) / 1) ^ 2 + ((0 - 0) / 1) ^ 2) with 1 by field. lra. }
  split; [exact H|].
  apply (ellipse_larger_axes_keep_more (0, 0) 1 1 2 3 0 false (1, 0));
    [lra | lra | lra | lra | exact H].
Defined.

End EllipseExtras.

(** ** [density2d]: bins and their events *)

Module BinningExtras.

Import Density2d BinningProps LoopProps HistogramProps PopulationProps.

(** The indices [np.digitize(.) - 1] after reconciliation: a value before
    the first edge gets [-1], a value after the last edge gets
    [len(edges) - 1], and every value from the first to the last edge
    gets the index of a bin; so the two outlier markers catch exactly the
    values outside the edges. *)
Theorem outlier_markers_catch_values_outside :
  forall (edges : list Q) (v : Q),
    valid_edges edges = true ->
    ((v < hd 0 edges)%Q -> bin_index edges v = (-1)%Z) /\
    ((last edges 0 < v)%Q ->
     bin_index edges v = (Z.of_nat (length edges) - 1)%Z) /\
    ((hd 0 edges <= v)%Q -> (v <= last edges 0)%Q ->
     (0 <= bin_index edges v <= Z.of_nat (length edges) - 2)%Z /\
     in_bin edges (Z.to_nat (bin_index edges v)) v = true).
Proof.
  intros edges v Hv.
  destruct (valid_edges_inv edges Hv) as [Hlen Hinc].
  pose proof (digitize_spec edges v Hinc) as (Hd & Hlo & Hhi).
  pose proof (increasing_nth edges Hinc 0 (length edges - 1) ltac:(lia)) as Hfl.
  rewrite hd_nth, last_nth in *.
  split; [|split].
  - intros Hbefore. unfold bin_index. rewrite last_nth.
    destruct (Qeq_bool v (nth (length edges - 1) edges 0%Q)) eqn:E.
    + apply Qeq_bool_iff in E. lra.
    + destruct (digitize v edges) as [|k] eqn:Ek; [reflexivity|].
      specialize (Hlo 0 ltac:(lia)). lra.
  - intros Hafter. unfold bin_index. rewrite last_nth.
    destruct (Qeq_bool v (nth (length edges - 1) edges 0%Q)) eqn:E.
    + apply Qeq_bool_iff in E. lra.
    + destruct (Nat.eq_dec (digitize v edges) (length edges)) as [->|Hne];
        [reflexivity|].
      specialize (Hhi (length edges - 1) ltac:(lia)). lra.
  - intros H0 H1.
    assert (Hw : within edges v = true).
    { unfold within. rewrite hd_nth, last_nth, andb_true_iff, !Qle_bool_iff.
      now split. }
    rewrite <- (not_outlier_within edges v Hv) in Hw.
    apply negb_true_iff in Hw. apply (not_outlier_iff edges v Hv) in Hw.
    split; [exact Hw|].
    apply (in_bin_iff edges _ v Hv). split; lia.
Qed.

Lemma outlier_markers_catch_values_outside_witness :
  bin_index [0; 1; 2]%Q (-1 # 2) = (-1)%Z /\
  bin_index [0; 1; 2]%Q (5 # 2) = 2%Z /\
  (0 <= bin_index [0; 1; 2]%Q 2 <= 1)%Z.
Proof.
  destruct (outlier_markers_catch_values_outside [0; 1; 2]%Q (-1 # 2) eq_refl)
    as (H1 & _).
  destruct (outlier_markers_catch_values_outside [0; 1; 2]%Q (5 # 2) eq_refl)
    as (_ & H2 & _).
  destruct (outlier_markers_catch_values_outside [0; 1; 2]%Q 2 eq_refl)
    as (_ & _ & H3).
  split; [apply H1; reflexivity|].
  split; [apply H2; reflexivity|].
  apply H3; discriminate.
Defined.

(** Cell by cell the two grids agree: the count [H[i, j]] is the length
    of the list [Hi[i, j]], and that list holds exactly the row numbers of
    the events whose x value is in bin [i] and whose y value is in bin
    [j] of [np.histogram2d]. *)
Theorem each_count_is_the_length_of_its_list :
  forall (pts : list (Q * Q)) (bins : list Q * list Q)
         (H : array2 nat) (xe ye : list Q),
    histogram2d pts bins = Ok (H, xe, ye) ->
    let Hi := fst (bin_events pts H xe ye) in
    forall i j, i < shape0 H -> j < shape1 H ->
      nth (i * shape1 H + j) (ravel H) 0 =
        length (nth (i * shape1 H + j) (ravel Hi) []) /\
      (forall r, In r (nth (i * shape1 H + j) (ravel Hi) []) <->
                 exists p, nth_error pts r = Some p /\
                           in_bin xe i (fst p) = true /\
                           in_bin ye j (snd p) = true).
Proof.
  intros pts bins H xe ye Hh. cbv zeta. intros i j Hi Hj.
  destruct (histogram2d_inv _ _ _ _ _ Hh) as (_ & Hxe & Hye & Hs0 & Hs1 & _).
  destruct (bin_events_spec _ _ _ _ _ Hh) as (_ & _ & _ & Hnth).
  split.
  - rewrite (counts_agree _ _ _ _ _ Hh) at 1.
    change 0 with (length (@nil nat)). apply (map_nth (@length nat)).
  - intros r. rewrite Hnth, events_of_bin_In, Hs1. split.
    + intros (p & _ & Hp & Hr & Hf). rewrite Nat.sub_0_r in Hp.
      exists p. split; [exact Hp|]. apply andb_true_iff.
      rewrite (cell_predicate xe ye Hxe Hye) by lia.
      rewrite Hr, Hf. now rewrite Nat.eqb_refl.
    + intros (p & Hp & Hx & Hy). exists p. rewrite Nat.sub_0_r.
      assert (Hc : in_bin xe i (fst p) && in_bin ye j (snd p) = true)
        by (now rewrite Hx, Hy).
      rewrite (cell_predicate xe ye Hxe Hye) in Hc by lia.
      apply andb_true_iff in Hc. destruct Hc as [Hr Hf].
      apply Nat.eqb_eq in Hf. repeat split; [lia | | |]; assumption.
Qed.

Lemma each_count_is_the_length_of_its_list_witness :
  let pts := [(2, 1 # 2); (1 # 2, 2); (3, 3); (0, 0); (-1, 1)]%Q in
  let xe := [0; 1; 2]%Q in
  let H := mkArray2 2 2 [1; 1; 1; 0] in
  nth (1 * 2 + 0) (ravel H) 0 =
  length (nth (1 * 2 + 0) (ravel (fst (bin_events pts H xe xe))) []).
Proof.
  cbv zeta.
  apply (each_count_is_the_length_of_its_list
           [(2, 1 # 2); (1 # 2, 2); (3, 3); (0, 0); (-1, 1)]%Q
           ([0; 1; 2]%Q, [0; 1; 2]%Q) (mkArray2 2 2 [1; 1; 1; 0])
           [0; 1; 2]%Q [0; 1; 2]%Q eq_refl 1 0); simpl; lia.
Defined.

(** The events stored in one bin are distinct row numbers. *)
Lemma events_of_bin_NoDup (xe ye : list Q) (pts : list (Q * Q)) (b : nat) :
  forall k, NoDup (events_of_bin xe ye k pts b).
Proof.
  induction pts as [|p pts IH]; intros k.
  - constructor.
  - unfold events_of_bin. cbn [enumerate_from filter snd].
    destruct (in_range xe ye p && Nat.eqb (flat_bin xe ye p) b).
    + simpl. constructor; [|apply IH].
      intros Hin. apply (events_of_bin_In xe ye pts b k (S k)) in Hin.
      destruct Hin as (_ & Hle & _). lia.
    + apply IH.
Qed.

(** An event is stored in one bin only. *)
Lemma events_of_bin_disjoint (xe ye : list Q) (pts : list (Q * Q))
  (b b' r : nat) :
  In r (events_of_bin xe ye 0 pts b) -> In r (events_of_bin xe ye 0 pts b') ->
  b = b'.
Proof.
  intros H1 H2. apply events_of_bin_In in H1, H2.
  destruct H1 as (p & _ & Hp & _ & <-). destruct H2 as (q & _ & Hq & _ & <-).
  congruence.
Qed.

End BinningExtras.

(** ** [density2d]: what a call returns *)

Module GateExtras.

Import Density2d BinningProps LoopProps HistogramProps PopulationProps.
Import ThresholdProps GateProps InstanceProps BinningExtras.

Lemma take_rows_Ok_inv {A : Type} (data : list A) (d : A) :
  forall (idx : list nat) (rows : list A),
    take_rows data idx = Ok rows ->
    rows = map (fun i => nth i data d) idx /\
    forall i, In i idx -> i < length data.
Proof.
  induction idx as [|i idx IH]; simpl; intros rows H.
  - injection H as <-. split; [reflexivity | intros i []].
  - destruct (nth_error data i) as [r|] eqn:E; [|discriminate].
    destruct (take_rows data idx) as [rs|e]; simpl in H; [|discriminate].
    injection H as <-. destruct (IH rs eq_refl) as [-> Hall]. split.
    + simpl. now rewrite (nth_error_nth _ _ d E).
    + intros j [<- | Hj]; [|now apply Hall].
      apply nth_error_Some. congruence.
Qed.

Lemma take_columns_two {A : Type} (row row' : list A) (c0 c1 : nat) :
  take_columns row [c0; c1] = Ok row' ->
  exists x y, row' = [x; y] /\ nth_error row c0 = Some x /\
              nth_error row c1 = Some y.
Proof.
  simpl. destruct (nth_error row c0) as [x|]; [|discriminate].
  destruct (nth_error row c1) as [y|]; simpl; [|discriminate].
  intros [= <-]. now exists x, y.
Qed.

Lemma firstn_In_le {A : Type} (l : list A) (a c : nat) (x : A) :
  a <= c -> In x (firstn a l) -> In x (firstn c l).
Proof.
  revert a c. induction l as [|y l IH]; intros a c Hac Hin.
  - now rewrite firstn_nil in Hin.
  - destruct a as [|a]; [contradiction|]. destruct c as [|c]; [lia|].
    simpl in *. destruct Hin as [-> | Hin]; [now left|].
    right. apply (IH a c); [lia | exact Hin].
Qed.

Lemma NoDup_firstn {A : Type} (l : list A) (k : nat) :
  NoDup l -> NoDup (firstn k l).
Proof.
  intros H. rewrite <- (firstn_skipn k l) in H.
  now apply NoDup_app_remove_r in H.
Qed.


(** The events of distinct bins are distinct row numbers. *)
Lemma accepted_NoDup (pts : list (Q * Q)) (bins : list Q * list Q)
  (H : array2 nat) (xe ye : list Q) (l : list nat) :
  histogram2d pts bins = Ok (H, xe, ye) ->
  NoDup l ->
  NoDup (concat (map (fun b => nth b (ravel (fst (bin_events pts H xe ye))) [])
                   l)).
Proof.
  intros Hh. destruct (bin_events_spec _ _ _ _ _ Hh) as (_ & _ & _ & Hnth).
  induction l as [|b l IH]; intros Hnd; simpl; [constructor|].
  inversion Hnd as [|? ? Hnotin Hnd']; subst.
  apply NoDup_app.
  - rewrite Hnth. apply events_of_bin_NoDup.
  - now apply IH.
  - intros r Hr Hr'. apply in_concat in Hr'.
    destruct Hr' as (lst & Hlst & Hin). apply in_map_iff in Hlst.
    destruct Hlst as (b' & <- & Hb'). rewrite Hnth in Hr, Hin.
    rewrite (events_of_bin_disjoint _ _ _ _ _ _ Hr Hin) in Hnotin.
    contradiction.
Qed.

Section Gate.

Variable gaussian_filter : array2 nat -> Q -> array2 Q.
Variable argsort : list float64 -> list nat.

Hypothesis gaussian_filter_shape :
  forall H sigma, length (ravel (gaussian_filter H sigma)) = length (ravel H).
Hypothesis argsort_perm :
  forall vD, Permutation (argsort vD) (seq 0 (length vD)).

(** What a successful call went through. *)
Lemma density2d_full_Ok_inv (data : list (list Q)) (channels : list nat)
  (bins : list Q * list Q) (gate_fraction sigma : Q)
  (out : Density2dGateOutput) :
  density2d_full gaussian_filter argsort data channels bins
    gate_fraction sigma = Ok out ->
  exists data_ch H xe ye Nidx,
    length channels = 2 /\
    getitem_columns data channels = Ok data_ch /\
    1 < length data_ch /\
    histogram2d (map point_of data_ch) bins = Ok (H, xe, ye) /\
    first_reaching
      (sorted_cumsum H (density_order gaussian_filter argsort H sigma))
      (count_needed gate_fraction
         (snd (bin_events (map point_of data_ch) H xe ye))) = Ok Nidx /\
    mask out =
      sort (accepted (fst (bin_events (map point_of data_ch) H xe ye))
              (density_order gaussian_filter argsort H sigma) Nidx) /\
    mask out <> [] /\
    gated_data out = map (fun i => nth i data []) (mask out) /\
    (forall i, In i (mask out) -> i < length data).
Proof.
  intros Hout.
  destruct (Nat.eqb (length channels) 2) eqn:Ec.
  2:{ unfold density2d_full in Hout. rewrite Ec in Hout. discriminate. }
  apply Nat.eqb_eq in Ec.
  destruct (getitem_columns data channels) as [data_ch|e] eqn:Ed.
  2:{ unfold density2d_full in Hout. rewrite Ec, Ed in Hout. discriminate. }
  destruct (Nat.ltb 1 (length data_ch)) eqn:En.
  2:{ unfold density2d_full in Hout. rewrite Ec, Ed in Hout.
      cbn [Nat.eqb assert bind] in Hout. rewrite En in Hout. discriminate. }
  apply Nat.ltb_lt in En.
  destruct (histogram2d (map point_of data_ch) bins) as [[[H xe] ye]|e] eqn:Eh.
  2:{ unfold density2d_full in Hout. rewrite Ec, Ed in Hout.
      cbn [Nat.eqb assert bind] in Hout. apply Nat.ltb_lt in En.
      rewrite En in Hout. cbn [assert bind] in Hout. rewrite Eh in Hout.
      discriminate. }
  rewrite (density2d_full_unfold gaussian_filter argsort _ _ _ _
             gate_fraction sigma _ _ _ Ec Ed En Eh) in Hout.
  destruct (first_reaching _ _) as [Nidx|e] eqn:Ef; cbn [bind] in Hout;
    [|discriminate].
  destruct (getitem_index _ _) as [gated|e] eqn:Eg; cbn [bind] in Hout;
    [|discriminate].
  injection Hout as <-. cbn [mask gated_data].
  exists data_ch, H, xe, ye, Nidx.
  unfold getitem_index in Eg.
  destruct (sort _) as [|i0 m] eqn:Em; [discriminate|].
  destruct (take_rows_Ok_inv data [] _ _ Eg) as [Hrows Hlt].
  repeat split; try assumption. discriminate.
Qed.

(** Whenever [density2d] returns, its [mask] is a non-empty array of row
    numbers in increasing order without repetition, [gated_data] holds
    the rows at those numbers, and every kept event lies within the bin
    edges on both gated channels. *)
Theorem density2d_result_contract :
  forall (data : list (list Q)) (c0 c1 : nat) (xe ye : list Q)
         (gate_fraction sigma : Q) (out : Density2dGateOutput),
    density2d_full gaussian_filter argsort data [c0; c1] (xe, ye)
      gate_fraction sigma = Ok out ->
    mask out <> [] /\ NoDup (mask out) /\ Sorted le (mask out) /\
    gated_data out = map (fun i => nth i data []) (mask out) /\
    length (gated_data out) = length (mask out) /\
    (forall r, In r (mask out) ->
               exists row x y,
                 nth_error data r = Some row /\
                 nth_error row c0 = Some x /\ nth_error row c1 = Some y /\
                 within xe x = true /\ within ye y = true).
Proof.
  intros data c0 c1 xe ye f sigma out Hout.
  destruct (density2d_full_Ok_inv _ _ _ _ _ _ Hout)
    as (data_ch & H & xe' & ye' & Nidx & _ & Hd & _ & Hh & _ & Hmask & Hne
        & Hg & Hlt).
  destruct (histogram2d_inv _ _ _ _ _ Hh) as (Hb & Hxe & Hye & _).
  injection Hb as <- <-.
  split; [exact Hne|]. split; [|split; [|split; [|split]]].
  - rewrite Hmask.
    apply (Permutation_NoDup (Permutation_sym (sort_perm _))).
    unfold accepted. apply (accepted_NoDup _ _ _ _ _ _ Hh).
    apply NoDup_firstn.
    apply (Permutation_NoDup
             (Permutation_sym
                (density_order_perm gaussian_filter argsort
                   gaussian_filter_shape argsort_perm H sigma))).
    apply seq_NoDup.
  - rewrite Hmask. apply sort_sorted.
  - exact Hg.
  - rewrite Hg. apply length_map.
  - intros r Hr. rewrite Hmask in Hr. apply (proj1 (sort_In _ _)) in Hr.
    apply (proj1 (accepted_In _ _ _ _)) in Hr. destruct Hr as (b & _ & Hr).
    destruct (bin_events_spec _ _ _ _ _ Hh) as (_ & _ & _ & Hnth).
    rewrite Hnth in Hr. apply events_of_bin_In in Hr.
    destruct Hr as (p & _ & Hp & Hin & _). rewrite Nat.sub_0_r in Hp.
    rewrite nth_error_map in Hp.
    destruct (nth_error data_ch r) as [row'|] eqn:Er; [|discriminate].
    injection Hp as <-.
    assert (Hr' : r < length data).
    { rewrite <- (getitem_columns_length _ _ _ Hd).
      apply nth_error_Some. congruence. }
    destruct (nth_error data r) as [row|] eqn:Erow;
      [|apply nth_error_None in Erow; lia].
    destruct (getitem_columns_nth _ _ _ _ _ Hd Erow) as (row'' & Ht & Hrow'').
    rewrite Er in Hrow''. injection Hrow'' as <-.
    destruct (take_columns_two _ _ _ _ Ht) as (x & y & -> & Hx & Hy).
    rewrite (in_range_within _ _ _ Hxe Hye) in Hin.
    apply andb_prop in Hin. destruct Hin as [Hwx Hwy].
    exists row, x, y. repeat split; assumption.
Qed.

End Gate.

Lemma density2d_result_contract_witness :
  let out := mkDensity2dGateOutput [[1 # 2; 1 # 2]; [1 # 2; 1 # 2]]%Q [0; 1] in
  mask out <> [] /\ NoDup (mask out) /\ Sorted le (mask out) /\
  gated_data out = map (fun i => nth i sample_events []) (mask out).
Proof.
  cbv zeta.
  destruct (density2d_result_contract
              gaussian_filter_narrow argsort_insertion
              gaussian_filter_narrow_shape argsort_insertion_perm
              sample_events 0 1 sample_edges sample_edges (65 # 100) (1 # 20)
              (mkDensity2dGateOutput [[1 # 2; 1 # 2]; [1 # 2; 1 # 2]]%Q [0; 1])
              eq_refl)
    as (H1 & H2 & H3 & H4 & _).
  repeat split; assumption.
Defined.

End GateExtras.

(** ** [density2d]: the fraction and the argument checks *)

Module SelectionExtras.

Import Density2d BinningProps LoopProps HistogramProps PopulationProps.
Import ThresholdProps GateProps InstanceProps BinningExtras GateExtras.

Lemma count_needed_one (N : nat) : count_needed 1 N = Z.of_nat N.
Proof.
  unfold count_needed.
  rewrite (Qceiling_comp _ _ (RoundingProps.scaled_count_one N)).
  apply Qceiling_Z.
Qed.

Lemma count_needed_nonpos (f : Q) (N : nat) :
  (f <= 0)%Q -> (count_needed f N <= 0)%Z.
Proof.
  intros Hf. unfold count_needed.
  apply Z.le_trans with (Qceiling (inject_Z 0));
    [|rewrite Qceiling_Z; lia].
  apply Qceiling_resp_le. change (inject_Z 0) with 0%Q.
  apply RoundingProps.scaled_count_nonpos, Hf.
Qed.

(** A target that is not positive is reached by the first running sum. *)
Lemma first_reaching_nonpos (csvH : list nat) (n : Z) :
  csvH <> [] -> (n <= 0)%Z -> first_reaching csvH n = Ok 0.
Proof.
  intros Hne Hn. destruct csvH as [|c rest]; [contradiction|].
  unfold first_reaching, nonzero. simpl.
  replace (n <=? Z.of_nat c)%Z with true by (symmetry; apply Z.leb_le; lia).
  reflexivity.
Qed.

Lemma accepted_rank0 (Hi : array2 (list nat)) (sidx : list nat) :
  sidx <> [] -> accepted Hi sidx 0 = nth (hd 0 sidx) (ravel Hi) [].
Proof.
  destruct sidx as [|b0 rest]; [contradiction|]. intros _.
  unfold accepted. simpl. apply app_nil_r.
Qed.

Section Gate.

Variable gaussian_filter : array2 nat -> Q -> array2 Q.
Variable argsort : list float64 -> list nat.

Hypothesis gaussian_filter_shape :
  forall H sigma, length (ravel (gaussian_filter H sigma)) = length (ravel H).
Hypothesis argsort_perm :
  forall vD, Permutation (argsort vD) (seq 0 (length vD)).


(** With [gate_fraction = 1] the gate keeps every event that lies within
    the bin edges on both gated channels, and so exactly [N] events. *)
Theorem density2d_full_fraction_keeps_all_in_range :
  forall (data data_ch : list (list Q)) (c0 c1 : nat) (bins : list Q * list Q)
         (sigma : Q) (H : array2 nat) (xe ye : list Q),
    getitem_columns data [c0; c1] = Ok data_ch ->
    1 < length data_ch ->
    histogram2d (map point_of data_ch) bins = Ok (H, xe, ye) ->
    let N := snd (bin_events (map point_of data_ch) H xe ye) in
    1 <= N ->
    exists out,
      density2d_full gaussian_filter argsort data [c0; c1] bins 1 sigma
        = Ok out /\
      length (mask out) = N /\
      (forall r row x y,
          nth_error data r = Some row ->
          nth_error row c0 = Some x -> nth_error row c1 = Some y ->
          within xe x = true -> within ye y = true ->
          In r (mask out)).
Proof.
  intros data data_ch c0 c1 bins sigma H xe ye Hd Hn Hh. cbv zeta. intros HN.
  destruct (density2d_selects gaussian_filter argsort gaussian_filter_shape
              argsort_perm data data_ch [c0; c1] bins 1%Q sigma _ _ _
              eq_refl Hd Hn Hh HN ltac:(reflexivity) ltac:(discriminate))
    as (Nidx & _ & Hk & Hreach & _ & Hacc & Hfull).
  set (pts := map point_of data_ch) in *.
  set (Hi := fst (bin_events pts H xe ye)) in *.
  set (N := snd (bin_events pts H xe ye)) in *.
  set (sidx := density_order gaussian_filter argsort H sigma) in *.
  set (stored := fun b => nth b (ravel Hi) []).
  destruct (histogram2d_inv _ _ _ _ _ Hh) as (_ & Hxe & Hye & _).
  destruct (bin_events_spec _ _ _ _ _ Hh) as (_ & _ & _ & Hnth).
  fold pts Hi in Hnth.
  pose proof (density_order_perm gaussian_filter argsort gaussian_filter_shape
                argsort_perm H sigma) as Hperm. fold sidx in Hperm.
  rewrite count_needed_one in Hreach.
  assert (Hall : length (concat (map stored sidx)) = N).
  { unfold stored, Hi, pts. rewrite <- (firstn_all sidx) at 1.
    rewrite (accepted_length _ _ _ _ _ _ _ Hh), firstn_all.
    apply (sorted_cumsum_total gaussian_filter argsort gaussian_filter_shape
             argsort_perm _ _ _ _ _ sigma Hh). }
  assert (Hlen : length (accepted Hi sidx Nidx) = N).
  { apply Nat.le_antisymm; [|lia].
    rewrite <- Hall. unfold accepted. fold stored.
    rewrite !length_concat, !map_map, <- firstn_map.
    rewrite <- (firstn_all (map (fun x => length (stored x)) sidx)) at 2.
    apply list_sum_firstn_le. rewrite length_map. lia. }
  eexists. split; [exact Hfull|]. cbn [mask]. split.
  - now rewrite sort_length.
  - intros r row x y Hrow Hx Hy Hwx Hwy. apply sort_In.
    assert (Hincl : incl (concat (map stored sidx)) (accepted Hi sidx Nidx)).
    { apply NoDup_length_incl.
      - unfold accepted, Hi, pts. apply (accepted_NoDup _ _ _ _ _ _ Hh).
        apply NoDup_firstn.
        apply (Permutation_NoDup (Permutation_sym Hperm)), seq_NoDup.
      - rewrite Hall, Hlen. lia.
      - intros i Hin. unfold accepted in Hin. fold stored in Hin.
        apply in_concat in Hin. destruct Hin as (lst & Hlst & Hin).
        apply in_map_iff in Hlst. destruct Hlst as (b & <- & Hb).
        apply in_concat. exists (stored b). split; [|exact Hin].
        apply in_map. rewrite <- (firstn_all sidx).
        apply (firstn_In_le _ (Nidx + 1) (length sidx)); [lia | exact Hb]. }
    apply Hincl.
    destruct (getitem_columns_nth _ _ _ _ _ Hd Hrow) as (row' & Ht & Hrow').
    rewrite (take_columns_pair _ _ _ _ _ Hx Hy) in Ht. injection Ht as <-.
    assert (Hp : nth_error pts r = Some (x, y)).
    { unfold pts. now rewrite nth_error_map, Hrow'. }
    assert (Hin : in_range xe ye (x, y) = true).
    { rewrite (in_range_within _ _ _ Hxe Hye). simpl. now rewrite Hwx, Hwy. }
    apply in_concat. exists (stored (flat_bin xe ye (x, y))). split.
    + apply in_map. apply (Permutation_in _ (Permutation_sym Hperm)).
      apply in_seq. split; [lia|]. simpl.
      rewrite (histogram2d_length _ _ _ _ _ Hh).
      now apply flat_bin_lt.
    + unfold stored. rewrite Hnth. apply events_of_bin_In.
      exists (x, y). rewrite Nat.sub_0_r.
      split; [lia|]. split; [exact Hp|]. split; [exact Hin | reflexivity].
Qed.

(** The kept sets are nested: on a valid call every event kept with the
    fraction [f1] is kept with any larger fraction [f2] up to [1]. *)
Theorem density2d_kept_events_are_nested :
  forall (data data_ch : list (list Q)) (channels : list nat)
         (bins : list Q * list Q) (f1 f2 sigma : Q)
         (H : array2 nat) (xe ye : list Q),
    length channels = 2 ->
    getitem_columns data channels = Ok data_ch ->
    1 < length data_ch ->
    histogram2d (map point_of data_ch) bins = Ok (H, xe, ye) ->
    1 <= snd (bin_events (map point_of data_ch) H xe ye) ->
    (0 < f1)%Q -> (f1 <= f2)%Q -> (f2 <= 1)%Q ->
    exists out1 out2,
      density2d_full gaussian_filter argsort data channels bins f1 sigma
        = Ok out1 /\
      density2d_full gaussian_filter argsort data channels bins f2 sigma
        = Ok out2 /\
      (forall r, In r (mask out1) -> In r (mask out2)).
Proof.
  intros data data_ch channels bins f1 f2 sigma H xe ye Hc Hd Hn Hh HN
    Hf1 Hle Hf2.
  destruct (density2d_selects gaussian_filter argsort gaussian_filter_shape
              argsort_perm _ _ _ _ f1 sigma _ _ _ Hc Hd Hn Hh HN Hf1
              ltac:(lra))
    as (k1 & _ & Hk1 & Hreach1 & Hbefore1 & _ & Hfull1).
  destruct (density2d_selects gaussian_filter argsort gaussian_filter_shape
              argsort_perm _ _ _ _ f2 sigma _ _ _ Hc Hd Hn Hh HN
              ltac:(lra) Hf2)
    as (k2 & _ & Hk2 & Hreach2 & _ & _ & Hfull2).
  do 2 eexists. split; [exact Hfull1|]. split; [exact Hfull2|].
  cbn [mask]. intros r Hr.
  pose proof (count_needed_mono f1 f2
                (snd (bin_events (map point_of data_ch) H xe ye)) Hle)
    as Hmono.
  assert (Hk : k1 <= k2).
  { destruct (Nat.le_gt_cases k1 k2) as [L|L]; [exact L|].
    specialize (Hbefore1 k2 L). lia. }
  apply sort_In. apply (proj1 (sort_In _ _)) in Hr.
  unfold accepted in *. apply accepted_In. apply (proj1 (accepted_In _ _ _ _)) in Hr.
  destruct Hr as (b & Hb & Hin). exists b. split; [|exact Hin].
  apply (firstn_In_le _ (k1 + 1) (k2 + 1)); [lia | exact Hb].
Qed.

(** A fraction that is not positive does not empty the gate: the target
    is met at rank 0 and the gate keeps the events of the single densest
    bin, or ends in numpy's [IndexError] when that bin holds no event. *)
Theorem density2d_nonpositive_fraction_keeps_densest_bin :
  forall (data data_ch : list (list Q)) (channels : list nat)
         (bins : list Q * list Q) (gate_fraction sigma : Q)
         (H : array2 nat) (xe ye : list Q),
    length channels = 2 ->
    getitem_columns data channels = Ok data_ch ->
    1 < length data_ch ->
    histogram2d (map point_of data_ch) bins = Ok (H, xe, ye) ->
    (gate_fraction <= 0)%Q ->
    let Hi := fst (bin_events (map point_of data_ch) H xe ye) in
    let densest := hd 0 (density_order gaussian_filter argsort H sigma) in
    let r := density2d_full gaussian_filter argsort data channels bins
               gate_fraction sigma in
    (nth densest (ravel Hi) [] = [] -> r = Err (Runtime IndexError)) /\
    (nth densest (ravel Hi) [] <> [] ->
     exists out, r = Ok out /\
                 length (mask out) = nth densest (ravel H) 0 /\
                 forall i, In i (mask out) <-> In i (nth densest (ravel Hi) [])).
Proof.
  intros data data_ch channels bins f sigma H xe ye Hc Hd Hn Hh Hf.
  cbv zeta.
  rewrite (density2d_full_unfold gaussian_filter argsort _ _ _ _ f sigma
             _ _ _ Hc Hd Hn Hh).
  set (pts := map point_of data_ch).
  set (Hi := fst (bin_events pts H xe ye)).
  set (sidx := density_order gaussian_filter argsort H sigma).
  pose proof (density_order_length gaussian_filter argsort
                gaussian_filter_shape argsort_perm H sigma) as Hslen.
  fold sidx in Hslen.
  pose proof (histogram2d_length _ _ _ _ _ Hh) as Hlen.
  destruct (histogram2d_inv _ _ _ _ _ Hh) as (_ & Hxe & Hye & _).
  destruct (valid_edges_inv _ Hxe) as [Hlx _].
  destruct (valid_edges_inv _ Hye) as [Hly _].
  assert (Hne : sorted_cumsum H sidx <> []).
  { intros E. apply (f_equal (@length nat)) in E.
    rewrite sorted_cumsum_length, Hslen, Hlen in E. simpl in E. nia. }
  rewrite (first_reaching_nonpos _ _ Hne (count_needed_nonpos f _ Hf)).
  cbn [bind].
  assert (Hacc : accepted Hi sidx 0 = nth (hd 0 sidx) (ravel Hi) []).
  { apply accepted_rank0. intros E. apply Hne. now rewrite E. }
  rewrite Hacc. split.
  - intros Hempty. rewrite Hempty. reflexivity.
  - intros Hfilled.
    assert (Hrows : forall i, In i (sort (nth (hd 0 sidx) (ravel Hi) [])) ->
                              i < length data).
    { intros i Hin. apply (proj1 (sort_In _ _)) in Hin.
      apply (stored_event_is_row _ _ _ _ _ _ _ Hh) in Hin.
      unfold pts in Hin. rewrite length_map in Hin.
      now rewrite <- (getitem_columns_length _ _ _ Hd). }
    unfold getitem_index.
    destruct (sort (nth (hd 0 sidx) (ravel Hi) [])) as [|i0 m] eqn:Em.
    + exfalso. apply Hfilled. apply length_zero_iff_nil.
      rewrite <- sort_length, Em. reflexivity.
    + rewrite (take_rows_ok data (i0 :: m) [] Hrows). cbn [bind].
      eexists. split; [reflexivity|]. cbn [mask]. rewrite <- Em. split.
      * rewrite sort_length. unfold Hi, pts.
        rewrite (counts_agree _ _ _ _ _ Hh).
        symmetry. exact (map_nth (@length nat) _ [] _).
      * intros i. apply sort_In.
Qed.

(** The two argument checks and their order: a [channels] list that has
    not two entries fails the first assertion whatever the data are; then
    fewer than two events fail the second assertion, so a single event or
    no event at all is never gated. *)
Theorem density2d_argument_checks :
  forall (data : list (list Q)) (channels : list nat)
         (bins : list Q * list Q) (gate_fraction sigma : Q),
    let r := density2d_full gaussian_filter argsort data channels bins
               gate_fraction sigma in
    (length channels <> 2 ->
     r = Err (Raised AssertionError "2 channels should be specified.")) /\
    (forall data_ch,
        length channels = 2 -> getitem_columns data channels = Ok data_ch ->
        length data <= 1 ->
        r = Err (Raised AssertionError "Data must have more than 1 event")).
Proof.
  intros data channels bins f sigma. cbv zeta. split.
  - intros Hc. unfold density2d_full.
    apply Nat.eqb_neq in Hc. now rewrite Hc.
  - intros data_ch Hc Hd Hn. unfold density2d_full. rewrite Hc, Hd.
    cbn [Nat.eqb assert bind].
    rewrite (getitem_columns_length _ _ _ Hd).
    replace (Nat.ltb 1 (length data)) with false
      by (symmetry; apply Nat.ltb_ge; lia).
    reflexivity.
Qed.

End Gate.

End SelectionExtras.

(** ** The further properties on the sample calls *)

Module SampleExtras.

Import Density2d InstanceProps SelectionExtras.


Lemma density2d_full_fraction_keeps_all_in_range_witness :
  exists out,
    density2d_full gaussian_filter_narrow argsort_insertion sample_events
      [0; 1] (sample_edges, sample_edges) 1 (1 # 20) = Ok out /\
    length (mask out) = 3 /\
    In 2 (mask out).
Proof.
  destruct (density2d_full_fraction_keeps_all_in_range
              gaussian_filter_narrow argsort_insertion
              gaussian_filter_narrow_shape argsort_insertion_perm
              sample_events sample_events 0 1 (sample_edges, sample_edges)
              (1 # 20) (mkArray2 2 2 [2; 0; 0; 1]) sample_edges sample_edges
              eq_refl ltac:(simpl; lia) eq_refl ltac:(vm_compute; lia))
    as (out & Hout & Hlen & Hall).
  exists out. split; [exact Hout|]. split; [exact Hlen|].
  apply (Hall 2 [3 # 2; 3 # 2]%Q (3 # 2) (3 # 2)); reflexivity.
Defined.

Lemma density2d_kept_events_are_nested_witness :
  exists out1 out2,
    density2d_full gaussian_filter_narrow argsort_insertion sample_events
      [0; 1] (sample_edges, sample_edges) (1 # 2) (1 # 20) = Ok out1 /\
    density2d_full gaussian_filter_narrow argsort_insertion sample_events
      [0; 1] (sample_edges, sample_edges) 1 (1 # 20) = Ok out2 /\
    (forall r, In r (mask out1) -> In r (mask out2)).
Proof.
  apply (density2d_kept_events_are_nested
           gaussian_filter_narrow argsort_insertion
           gaussian_filter_narrow_shape argsort_insertion_perm
           sample_events sample_events [0; 1] (sample_edges, sample_edges)
           (1 # 2) 1 (1 # 20) (mkArray2 2 2 [2; 0; 0; 1])
           sample_edges sample_edges).
  - reflexivity.
  - reflexivity.
  - simpl. lia.
  - reflexivity.
  - vm_compute. lia.
  - reflexivity.
  - discriminate.
  - discriminate.
Defined.

Lemma density2d_nonpositive_fraction_keeps_densest_bin_witness :
  exists out,
    density2d_full gaussian_filter_narrow argsort_insertion sample_events
      [0; 1] (sample_edges, sample_edges) 0 (1 # 20) = Ok out /\
    length (mask out) = 2.
Proof.
  destruct (density2d_nonpositive_fraction_keeps_densest_bin
              gaussian_filter_narrow argsort_insertion
              gaussian_filter_narrow_shape argsort_insertion_perm
              sample_events sample_events [0; 1] (sample_edges, sample_edges)
              0 (1 # 20) (mkArray2 2 2 [2; 0; 0; 1]) sample_edges sample_edges
              eq_refl eq_refl ltac:(simpl; lia) eq_refl ltac:(discriminate))
    as (_ & Hkeep).
  destruct (Hkeep ltac:(vm_compute; discriminate)) as (out & Hout & Hlen & _).
  exists out. split; [exact Hout|]. rewrite Hlen. reflexivity.
Defined.

Lemma density2d_argument_checks_witness :
  density2d_full gaussian_filter_narrow argsort_insertion sample_events
    [0] (sample_edges, sample_edges) (65 # 100) (1 # 20) =
  Err (Raised AssertionError "2 channels should be specified.") /\
  density2d_full gaussian_filter_narrow argsort_insertion [[1; 2]]%Q
    [0; 1] (sample_edges, sample_edges) (65 # 100) (1 # 20) =
  Err (Raised AssertionError "Data must have more than 1 event").
Proof.
  split.
  - apply (density2d_argument_checks gaussian_filter_narrow argsort_insertion
             sample_events [0] (sample_edges, sample_edges)
             (65 # 100) (1 # 20)).
    simpl. lia.
  - apply (proj2 (density2d_argument_checks
             gaussian_filter_narrow argsort_insertion
             [[1; 2]]%Q [0; 1] (sample_edges, sample_edges)
             (65 # 100) (1 # 20)) [[1; 2]]%Q); [reflexivity | reflexivity|].
    simpl. lia.
Defined.

End SampleExtras.
